(** * Markdown sidecar: the HTML -> Markdown pipeline of [app/main.py]

    A shallow embedding of [extract_metadata], [strip_non_content],
    [html_to_markdown] and [count_tokens], with the parts of the Python
    runtime and of BeautifulSoup they rely on, followed by the properties
    the specification states about them. *)

From Stdlib Require Import List NArith ZArith Bool Lia String Ascii.
Import ListNotations.
#[local] Open Scope string_scope.
#[local] Open Scope list_scope.

(** ** Python strings

    A Python [str] is a sequence of Unicode code points; a code point is
    kept as its number, so that [str.strip] and [str.splitlines] can be
    given their Unicode character classes. *)
Module Py.

Definition str := list N.

(** An ASCII literal of the source, as a [str]. *)
Definition lit (s : string) : str :=
  List.map N_of_ascii (list_ascii_of_string s).

Definition LF : N := 10.
Definition CR : N := 13.

(** [str.isspace] on one code point (CPython's [_PyUnicode_IsWhitespace]). *)
Definition isspace (c : N) : bool :=
  ((9 <=? c) && (c <=? 13) || (28 <=? c) && (c <=? 31) || (c =? 32)
   || (c =? 133) || (c =? 160) || (c =? 5760)
   || (8192 <=? c) && (c <=? 8202) || (c =? 8232) || (c =? 8233)
   || (c =? 8239) || (c =? 8287) || (c =? 12288))%N.

(** The line boundaries of [str.splitlines] (CPython's
    [_PyUnicode_IsLinebreak]). *)
Definition islinebreak (c : N) : bool :=
  ((10 <=? c) && (c <=? 13) || (28 <=? c) && (c <=? 30)
   || (c =? 133) || (c =? 8232) || (c =? 8233))%N.

Fixpoint str_eqb (a b : str) : bool :=
  match a, b with
  | [], [] => true
  | x :: a', y :: b' => (x =? y)%N && str_eqb a' b'
  | _, _ => false
  end.

Fixpoint lstrip (s : str) : str :=
  match s with
  | [] => []
  | c :: rest => if isspace c then lstrip rest else s
  end.

Definition rstrip (s : str) : str := rev (lstrip (rev s)).

(** [s.strip()] with no argument. *)
Definition strip (s : str) : str := rstrip (lstrip s).

(** [s.splitlines()]: [line] is the line being read. A carriage return
    followed by a line feed is one boundary; a final boundary opens no
    empty last line. *)
Fixpoint splitlines_from (line s : str) : list str :=
  match s with
  | [] => match line with [] => [] | _ => [line] end
  | c :: rest =>
      if islinebreak c then
        line :: match rest with
                | c' :: rest' =>
                    if ((c =? CR) && (c' =? LF))%N
                    then splitlines_from [] rest'
                    else splitlines_from [] rest
                | [] => splitlines_from [] rest
                end
      else splitlines_from (line ++ [c]) rest
  end.

Definition splitlines (s : str) : list str := splitlines_from [] s.

(** [sep.join(parts)]. *)
Fixpoint join (sep : str) (parts : list str) : str :=
  match parts with
  | [] => []
  | [p] => p
  | p :: more => p ++ sep ++ join sep more
  end.

(** [s.startswith(prefix)]. *)
Fixpoint startswith (prefix s : str) : bool :=
  match prefix, s with
  | [], _ => true
  | p :: prefix', c :: s' => (p =? c)%N && startswith prefix' s'
  | _ :: _, [] => false
  end.

(** [needle in s]. *)
Fixpoint contains (needle s : str) : bool :=
  startswith needle s
  || match s with
     | [] => false
     | _ :: s' => contains needle s'
     end.

(** [s.replace(old, new)] for a one-character [old]. *)
Definition replace_char (old : N) (new s : str) : str :=
  flat_map (fun c => if (c =? old)%N then new else [c]) s.

(** The whitespace-separated words of [s] (the matches of [\S+]). *)
Fixpoint words_from (word s : str) : list str :=
  match s with
  | [] => match word with [] => [] | _ => [word] end
  | c :: rest =>
      if isspace c
      then match word with
           | [] => words_from [] rest
           | _ => word :: words_from [] rest
           end
      else words_from (word ++ [c]) rest
  end.

Definition words (s : str) : list str := words_from [] s.

End Py.

Import Py.

(** ** Step 6 of [html_to_markdown]: blank-line clean-up *)

(** One turn of the loop over [lines]; the state is [(cleaned, blank_count)]. *)
Definition clean_step (st : list str * Z) (line : str) : list str * Z :=
  let '(cleaned, blank_count) := st in
  if str_eqb (strip line) [] then
    let blank_count := (blank_count + 1)%Z in
    if (blank_count <=? 2)%Z
    then (cleaned ++ [[]], blank_count)
    else (cleaned, blank_count)
  else (cleaned ++ [line], 0%Z).

Definition clean_blank_lines (lines : list str) : list str :=
  fst (fold_left clean_step lines ([], 0%Z)).

Definition normalize_whitespace (markdown_body : str) : str :=
  strip (join [LF] (clean_blank_lines (splitlines markdown_body))).


(** ** BeautifulSoup trees

    What [BeautifulSoup(html, "html.parser")] builds, as far as this
    program reads it. A [Tag] carries the identity of the Python object
    ([uid]): a list of matches computed before a mutation keeps referring
    to the same elements afterwards. [NavigableString] stands for every
    string node (text, comment, CDATA, ...); none of the operations below
    tells them apart. An attribute keeps the value written in the document. *)
Module Bs4.

#[local] Set Warnings "-register-all".

Inductive PageElement : Type :=
| NavigableString (text : str)
| Tag (uid : nat) (name : str) (attrs : list (str * str))
      (contents : list PageElement).

Definition is_tag (e : PageElement) : bool :=
  match e with Tag _ _ _ _ => true | NavigableString _ => false end.

Definition tag_name (e : PageElement) : option str :=
  match e with Tag _ n _ _ => Some n | NavigableString _ => None end.

Definition named (n : str) (e : PageElement) : bool :=
  match e with Tag _ n' _ _ => str_eqb n' n | NavigableString _ => false end.

Definition has_uid (u : nat) (e : PageElement) : bool :=
  match e with Tag u' _ _ _ => Nat.eqb u' u | NavigableString _ => false end.

(** [attrs.get(key)]. *)
Fixpoint attrs_get (key : str) (attrs : list (str * str)) : option str :=
  match attrs with
  | [] => None
  | (k, v) :: rest => if str_eqb k key then Some v else attrs_get key rest
  end.

(** [tag.get(key)]. *)
Definition get (key : str) (e : PageElement) : option str :=
  match e with
  | Tag _ _ attrs _ => attrs_get key attrs
  | NavigableString _ => None
  end.

(** The class list of an element: [class] is a multi-valued attribute,
    split at whitespace. *)
Definition class_list (e : PageElement) : list str :=
  match get (lit "class") e with
  | Some v => words v
  | None => []
  end.

(** [tag.descendants]: every node below [e], in document order. *)
Fixpoint descendants (e : PageElement) : list PageElement :=
  match e with
  | NavigableString _ => []
  | Tag _ _ _ contents =>
      (fix walk (l : list PageElement) : list PageElement :=
         match l with
         | [] => []
         | c :: l' => c :: descendants c ++ walk l'
         end) contents
  end.

(** [tag.string]: the single string a tag holds, directly or through a
    chain of only children; [None] when some tag on the way has no child
    or several. *)
Fixpoint string_of (e : PageElement) : option str :=
  match e with
  | NavigableString s => Some s
  | Tag _ _ _ [c] => string_of c
  | Tag _ _ _ _ => None
  end.

(** How [find] compares one wanted attribute with the element's. Of the
    attributes the program searches ([id], [class], [name], [property]),
    [class] is the one the parser keeps as a list of words: it matches on
    any one of its words or on the words joined by spaces. Another
    attribute matches on its whole value; a missing one never matches. *)
Definition attr_matches (e : PageElement) (want : str * str) : bool :=
  let '(key, value) := want in
  match get key e with
  | None => false
  | Some v =>
      if str_eqb key (lit "class")
      then existsb (fun w => str_eqb w value) (words v)
           || str_eqb (join (lit " ") (words v)) value
      else str_eqb v value
  end.

Definition find_matches (name : str) (attrs : list (str * str))
    (e : PageElement) : bool :=
  named name e && forallb (attr_matches e) attrs.

(** [tag.find_all(name, attrs)]. *)
Definition find_all (name : str) (attrs : list (str * str))
    (e : PageElement) : list PageElement :=
  filter (find_matches name attrs) (descendants e).

(** [tag.find(name, attrs)]: the first match in document order. *)
Definition find (name : str) (attrs : list (str * str))
    (e : PageElement) : option PageElement :=
  List.find (find_matches name attrs) (descendants e).

(** The attributes the parser keeps as a list of words, by tag name
    ([HTMLTreeBuilder.DEFAULT_CDATA_LIST_ATTRIBUTES]); the first entry is
    for every tag. *)
Definition CDATA_LIST_ATTRIBUTES : list (str * list str) :=
  [ (lit "*", [lit "class"; lit "accesskey"; lit "dropzone"]);
    (lit "a", [lit "rel"; lit "rev"]);
    (lit "link", [lit "rel"; lit "rev"]);
    (lit "td", [lit "headers"]);
    (lit "th", [lit "headers"]);
    (lit "form", [lit "accept-charset"]);
    (lit "object", [lit "archive"]);
    (lit "area", [lit "rel"]);
    (lit "icon", [lit "sizes"]);
    (lit "iframe", [lit "sandbox"]);
    (lit "output", [lit "for"]) ].

Definition is_list_attribute (name attr : str) : bool :=
  existsb
    (fun entry =>
       (str_eqb (fst entry) (lit "*") || str_eqb (fst entry) name)
       && existsb (str_eqb attr) (snd entry))
    CDATA_LIST_ATTRIBUTES.

(** The value of attribute [attr] as an attribute selector reads it: a
    list of words is joined by single spaces. *)
Definition attr_text (attr : str) (e : PageElement) : option str :=
  match e with
  | Tag _ name attrs _ =>
      match attrs_get attr attrs with
      | Some v =>
          Some (if is_list_attribute name attr
                then join (lit " ") (words v) else v)
      | None => None
      end
  | NavigableString _ => None
  end.

(** A CSS selector as [select] takes it once it is parsed. The four forms
    of the literal list are a tag name, [.class], [#id] and
    [[attr='value']] (for an attribute other than [type], whose value is
    compared without case). [ContextSel] is any other selector (compound,
    with a combinator, structural such as [:empty] or [:first-child],
    ...): a test on an element in the context of the tree [select] is
    called on. *)
Inductive selector : Type :=
| TypeSel (name : str)
| ClassSel (cls : str)
| IdSel (id : str)
| AttrSel (attr value : str)
| ContextSel (test : PageElement -> PageElement -> bool).

(** Whether [e] matches selector [s] when [select] is called on [root].
    An attribute selector compiles its value to the pattern [^value$],
    which [re.match] also accepts on the value followed by one line feed. *)
Definition sel_matches (root : PageElement) (s : selector) (e : PageElement)
  : bool :=
  is_tag e &&
  match s with
  | TypeSel n => named n e
  | ClassSel c => existsb (fun w => str_eqb w c) (class_list e)
  | IdSel i =>
      match get (lit "id") e with Some v => str_eqb v i | None => false end
  | AttrSel a x =>
      match attr_text a e with
      | Some v => str_eqb v x || str_eqb v (x ++ [LF])
      | None => false
      end
  | ContextSel test => test root e
  end.

(** [tag.select(selector)]: the matching descendants, in document order,
    computed as a list before anything is done with it. *)
Definition select (s : selector) (e : PageElement) : list PageElement :=
  filter (sel_matches e s) (descendants e).

(** The tree under [root] once every element below it that satisfies [p]
    has been taken out of its parent, with all it contains. *)
Fixpoint prune (p : PageElement -> bool) (root : PageElement) : PageElement :=
  match root with
  | NavigableString s => NavigableString s
  | Tag uid name attrs contents =>
      Tag uid name attrs
        ((fix each (l : list PageElement) : list PageElement :=
            match l with
            | [] => []
            | c :: l' => if p c then each l' else prune p c :: each l'
            end) contents)
  end.

(** What is left of the tree under [root] once the element of identity [u]
    has been taken out of its parent. An element that is no longer in the
    tree has no parent to be taken out of, and the tree stays as it is. *)
Definition detach (u : nat) (root : PageElement) : PageElement :=
  prune (has_uid u) root.

(** [element.decompose()], seen from the tree under [root]. *)
Definition decompose (element root : PageElement) : PageElement :=
  match element with
  | Tag u _ _ _ => detach u root
  | NavigableString _ => root
  end.

(** The identities of the tags below [e]. *)
Definition uids (e : PageElement) : list nat :=
  flat_map (fun d => match d with Tag u _ _ _ => [u] | _ => [] end)
           (descendants e).

End Bs4.

Import Bs4.

(** ** Calls that may raise *)

(** What a call that may raise comes to. [Raised] stands for an exception
    of class [Exception], the ones a clause [except Exception] catches. *)
Inductive outcome (A : Type) : Type :=
| Returned (a : A)
| Raised.

Arguments Returned {A} a.
Arguments Raised {A}.

(** ** Configuration *)

(** The literal list [STRIP_SELECTORS] starts from. *)
Definition DEFAULT_STRIP_SELECTORS : list selector :=
  [ TypeSel (lit "nav"); TypeSel (lit "header"); TypeSel (lit "footer");
    TypeSel (lit "script"); TypeSel (lit "style"); TypeSel (lit "noscript");
    TypeSel (lit "iframe"); TypeSel (lit "object"); TypeSel (lit "embed");
    ClassSel (lit "cookie-banner"); ClassSel (lit "cookie-consent");
    IdSel (lit "cookie-banner"); IdSel (lit "cookie-consent");
    AttrSel (lit "role") (lit "navigation");
    AttrSel (lit "role") (lit "banner");
    AttrSel (lit "role") (lit "contentinfo");
    ClassSel (lit "breadcrumb"); ClassSel (lit "pagination");
    ClassSel (lit "sidebar"); TypeSel (lit "aside");
    TypeSel (lit "form") ].

(** [STRIP_SELECTORS] once the module is loaded: the selectors of the
    environment variable are appended to the literal list. *)
Definition STRIP_SELECTORS (EXTRA_STRIP : list selector) : list selector :=
  DEFAULT_STRIP_SELECTORS ++ EXTRA_STRIP.

(** ** Metadata *)

(** A Python [dict] from [str] to [str]: the items in insertion order. *)
Definition dict := list (str * str).

(** [d[key] = value]: a key already present keeps its place. *)
Fixpoint dict_set (key value : str) (d : dict) : dict :=
  match d with
  | [] => [(key, value)]
  | (k, v) :: rest =>
      if str_eqb k key then (k, value) :: rest
      else (k, v) :: dict_set key value rest
  end.

(** [d.get(key)]. *)
Fixpoint dict_get (key : str) (d : dict) : option str :=
  match d with
  | [] => None
  | (k, v) :: rest => if str_eqb k key then Some v else dict_get key rest
  end.

(** Truth value of a [str]. *)
Definition truthy (s : str) : bool :=
  match s with [] => false | _ :: _ => true end.

(** [meta[key] = tag["content"].strip()] when [tag] was found and has a
    truthy [content]. *)
Definition set_from_content (key : str) (tag : option PageElement)
    (meta : dict) : dict :=
  match tag with
  | Some t =>
      match get (lit "content") t with
      | Some c => if truthy c then dict_set key (strip c) meta else meta
      | None => meta
      end
  | None => meta
  end.

Definition extract_metadata (soup : PageElement) : dict :=
  let meta : dict := [] in
  let title_tag := find (lit "title") [] soup in
  let meta :=
    match title_tag with
    | Some t =>
        match string_of t with
        | Some s =>
            if truthy s then dict_set (lit "title") (strip s) meta else meta
        | None => meta
        end
    | None => meta
    end in
  let meta :=
    fold_left
      (fun meta name =>
         set_from_content name (find (lit "meta") [(lit "name", name)] soup)
           meta)
      [lit "description"; lit "author"; lit "keywords"] meta in
  let og_image := find (lit "meta") [(lit "property", lit "og:image")] soup in
  set_from_content (lit "image") og_image meta.

(** ** Pruning *)

(** The two loops, for selectors that [select] has parsed. *)
Definition strip_non_content (selectors : list selector)
    (soup : PageElement) : PageElement :=
  fold_left
    (fun soup selector =>
       fold_left (fun soup element => decompose element soup)
         (select selector soup) soup)
    selectors soup.

(** The same on the entries of [STRIP_SELECTORS] as the program holds them,
    texts: [soup.select(text)] first parses the text ([compile], the
    parser of the selector library) and raises [SelectorSyntaxError] for a
    text that is no selector, which ends the loops. *)
Fixpoint strip_non_content_texts (compile : str -> outcome selector)
    (texts : list str) (soup : PageElement) : outcome PageElement :=
  match texts with
  | [] => Returned soup
  | text :: more =>
      match compile text with
      | Returned selector =>
          strip_non_content_texts compile more
            (fold_left (fun soup element => decompose element soup)
               (select selector soup) soup)
      | Raised => Raised
      end
  end.

(** ** The conversion *)

(** Step 2: the first of [find("main")], [find("article")],
    [find("div", {"id": "content"})], [find("div", {"class": "content"})]
    and [soup.body] that is not [None], else [soup]. A tag is always true. *)
Definition content_root (soup : PageElement) : PageElement :=
  match find (lit "main") [] soup with
  | Some e => e
  | None =>
  match find (lit "article") [] soup with
  | Some e => e
  | None =>
  match find (lit "div") [(lit "id", lit "content")] soup with
  | Some e => e
  | None =>
  match find (lit "div") [(lit "class", lit "content")] soup with
  | Some e => e
  | None =>
  match find (lit "body") [] soup with
  | Some e => e
  | None => soup
  end end end end end.

(** Step 4: every [img] below the root is decomposed. *)
Definition remove_images (root : PageElement) : PageElement :=
  fold_left (fun root img => decompose img root)
    (find_all (lit "img") [] root) root.

Definition DQUOTE : N := 34.
Definition BACKSLASH : N := 92.

(** One line of front matter: the key, a colon and a space, and the value
    between double quotes, each double quote of the value escaped. *)
Definition front_matter_line (item : str * str) : str :=
  let '(key, value) := item in
  let safe_value := replace_char DQUOTE [BACKSLASH; DQUOTE] value in
  key ++ lit ": " ++ [DQUOTE] ++ safe_value ++ [DQUOTE].

(** Step 7. *)
Definition build_front_matter (metadata : dict) (markdown_body : str) : str :=
  match metadata with
  | [] => markdown_body
  | _ :: _ =>
      let front_matter_lines :=
        [lit "---"] ++ map front_matter_line metadata ++ [lit "---"] in
      let front_matter := join [LF] front_matter_lines in
      front_matter ++ [LF; LF] ++ markdown_body
  end.

Section Conversion.

(** The libraries the conversion calls: the HTML parser, the rendering of a
    tree as HTML text and the Markdown converter with the options of the
    call ([heading_style="ATX"], [bullets="-"]). [EXTRA_STRIP] is what the
    texts of the environment variable parse to; with a text that does not
    parse the conversion raises ([strip_non_content_texts]). *)
Variable BeautifulSoup : str -> PageElement.
Variable to_html : PageElement -> str.
Variable md : str -> str.
Variable EXTRA_STRIP : list selector.

(** Steps 2 to 4: the tree handed to the Markdown converter. The root is
    followed as a subtree: the rest of the document is not read again. *)
Definition pruned_root (soup : PageElement) : PageElement :=
  remove_images (strip_non_content (STRIP_SELECTORS EXTRA_STRIP)
                   (content_root soup)).

(** Steps 1 to 7 on the parsed document. *)
Definition convert_soup (soup : PageElement) : str * dict :=
  let metadata := extract_metadata soup in
  let markdown_body := md (to_html (pruned_root soup)) in
  let markdown_body := normalize_whitespace markdown_body in
  (build_front_matter metadata markdown_body, metadata).

Definition html_to_markdown (html page_url : str) : str * dict :=
  convert_soup (BeautifulSoup html).

End Conversion.

(** ** Token count *)

(** The tokenizer library: [tiktoken.get_encoding] and [Encoding.encode],
    either of which may raise. *)
Record Tokenizer : Type := {
  Encoding : Type;
  get_encoding : str -> outcome Encoding;
  encode : Encoding -> str -> outcome (list N)
}.

Section Tokens.

Variable tiktoken : Tokenizer.
Variable TOKEN_MODEL : str.

(** [get_encoder]: [_encoder] is the module-level cache, passed in and
    handed back. *)
Definition get_encoder (_encoder : option (Encoding tiktoken))
  : outcome (Encoding tiktoken) * option (Encoding tiktoken) :=
  match _encoder with
  | None =>
      match get_encoding tiktoken TOKEN_MODEL with
      | Returned enc => (Returned enc, Some enc)
      | Raised => (Raised, None)
      end
  | Some enc => (Returned enc, Some enc)
  end.

(** [count_tokens]: the [try] body, then the [except] branch. *)
Definition count_tokens (_encoder : option (Encoding tiktoken)) (text : str)
  : outcome Z * option (Encoding tiktoken) :=
  let '(got, _encoder) := get_encoder _encoder in
  let tried :=
    match got with
    | Returned enc =>
        match encode tiktoken enc text with
        | Returned tokens => Returned (Z.of_nat (List.length tokens))
        | Raised => Raised
        end
    | Raised => Raised
    end in
  match tried with
  | Returned n => (Returned n, _encoder)
  | Raised => (Returned (Z.of_nat (List.length text) / 4)%Z, _encoder)
  end.

End Tokens.


(** * Vocabulary of the properties *)

(** ** Strings *)

(** A line is blank when it holds whitespace only. *)
Definition blank (line : str) : bool := forallb isspace line.

(** ** The blank-line clean-up *)

(** What one line adds to [cleaned], and the counter it leaves. *)
Definition emitted (blank_count : Z) (line : str) : list str :=
  if blank line
  then if (blank_count + 1 <=? 2)%Z then [[]] else []
  else [line].

Definition counted (blank_count : Z) (line : str) : Z :=
  if blank line then (blank_count + 1)%Z else 0%Z.

(** The counter after a list of lines. *)
Definition blank_count_after (n : Z) (lines : list str) : Z :=
  snd (fold_left clean_step lines ([], n)).

(** The last line of [lines], if any, is not blank. *)
Definition ends_in_text (lines : list str) : bool :=
  match rev lines with [] => true | l :: _ => negb (blank l) end.

(** The first line of [lines], if any, is not blank. *)
Definition begins_with_text (lines : list str) : bool :=
  match lines with [] => true | l :: _ => negb (blank l) end.

(** ** Trees *)

Section PageElement_induction.

Variable P : PageElement -> Prop.
Hypothesis on_string : forall s, P (NavigableString s).
Hypothesis on_tag :
  forall uid name attrs contents,
    Forall P contents -> P (Tag uid name attrs contents).

Fixpoint PageElement_nested_ind (e : PageElement) : P e :=
  match e with
  | NavigableString s => on_string s
  | Tag uid name attrs contents =>
      on_tag uid name attrs contents
        ((fix all (l : list PageElement) : Forall P l :=
            match l with
            | [] => Forall_nil P
            | c :: l' => Forall_cons c (PageElement_nested_ind c) (all l')
            end) contents)
  end.

End PageElement_induction.

(** Document-order examples are written with these two. *)
Definition el (uid : nat) (name : string) (attrs : list (string * string))
    (contents : list PageElement) : PageElement :=
  Tag uid (lit name) (map (fun '(k, v) => (lit k, lit v)) attrs) contents.

Definition txt (s : string) : PageElement := NavigableString (lit s).

(** ** The content root *)

Definition has_id (id : str) (e : PageElement) : bool :=
  match get (lit "id") e with Some v => str_eqb v id | None => false end.

Definition has_class (cls : str) (e : PageElement) : bool :=
  existsb (fun w => str_eqb w cls) (class_list e).

(** [e] is the first node of [soup] in document order that satisfies [p]. *)
Definition first_in_document (p : PageElement -> bool)
    (soup e : PageElement) : Prop :=
  exists before after,
    descendants soup = before ++ e :: after
    /\ p e = true
    /\ forallb (fun x => negb (p x)) before = true.

(** No node of [soup] satisfies [p]. *)
Definition none_in_document (p : PageElement -> bool)
    (soup : PageElement) : Prop :=
  forallb (fun x => negb (p x)) (descendants soup) = true.

(** The chain as the specification words it: tiers 3 and 4 take an element
    of any name. *)
Definition spec_content_root (soup : PageElement) : PageElement :=
  let first p := List.find p (descendants soup) in
  match first (named (lit "main")) with
  | Some e => e
  | None =>
  match first (named (lit "article")) with
  | Some e => e
  | None =>
  match first (fun e => is_tag e && has_id (lit "content") e) with
  | Some e => e
  | None =>
  match first (fun e => is_tag e && has_class (lit "content") e) with
  | Some e => e
  | None =>
  match first (named (lit "body")) with
  | Some e => e
  | None => soup
  end end end end end.

(** [<body><p>Intro</p><section id="content"><p>Text</p></section></body>] *)
Definition doc_section_content : PageElement :=
  el 0 "[document]" []
    [el 1 "html" []
       [el 2 "body" []
          [el 3 "p" [] [txt "Intro"];
           el 4 "section" [("id", "content")]
             [el 5 "p" [] [txt "Text"]]]]].

Definition is_main (e : PageElement) : bool := named (lit "main") e.
Definition is_article (e : PageElement) : bool := named (lit "article") e.
Definition is_content_id_div (e : PageElement) : bool :=
  named (lit "div") e && has_id (lit "content") e.
Definition is_content_class_div (e : PageElement) : bool :=
  named (lit "div") e && has_class (lit "content") e.
Definition is_body (e : PageElement) : bool := named (lit "body") e.

(** ** Metadata *)

(** The string a key is read from: [title] from the first [title] element,
    the others from the [content] attribute of the first [meta] element
    with the given attribute. *)
Definition title_source (soup : PageElement) : option str :=
  match find (lit "title") [] soup with
  | Some t => string_of t
  | None => None
  end.

Definition meta_source (attr value : str) (soup : PageElement) : option str :=
  match find (lit "meta") [(attr, value)] soup with
  | Some t => get (lit "content") t
  | None => None
  end.

(** The value stored for a source: nothing for a missing or empty source,
    else the source trimmed. *)
Definition entry (source : option str) : option str :=
  match source with
  | Some s => if truthy s then Some (strip s) else None
  | None => None
  end.

Definition item (key : str) (value : option str) : dict :=
  match value with Some v => [(key, v)] | None => [] end.

Definition keys (d : dict) : list str := map fst d.

(** The keys, in their fixed order. *)
Definition KEY_ORDER : list str :=
  [lit "title"; lit "description"; lit "author"; lit "keywords"; lit "image"].

Definition has_key (d : dict) (key : str) : bool :=
  match dict_get key d with Some _ => true | None => false end.




(** [<head><title> </title></head><body><p>Text</p></body>] *)
Definition doc_blank_title : PageElement :=
  el 0 "[document]" []
    [el 1 "html" []
       [el 2 "head" [] [el 3 "title" [] [txt " "]];
        el 4 "body" [] [el 5 "p" [] [txt "Text"]]]].

(** A page with every source, the sources out of the fixed order. *)
Definition doc_full_head : PageElement :=
  el 0 "[document]" []
    [el 1 "html" []
       [el 2 "head" []
          [el 3 "meta" [("property", "og:image"); ("content", "/hero.jpg")] [];
           el 4 "meta" [("name", "keywords"); ("content", "a, b")] [];
           el 5 "meta" [("name", "author"); ("content", " Ann ")] [];
           el 6 "meta" [("name", "description"); ("content", "About")] [];
           el 7 "title" [] [txt " Home "]];
        el 8 "body" []
          [el 9 "main" []
             [el 10 "img" [("src", "/hero.jpg"); ("alt", "Hero")] [];
              el 11 "p" [] [txt "Welcome"]]]]].

Definition is_title (e : PageElement) : bool := named (lit "title") e.


(** ** Front matter *)

(** [safe] is [value] with a backslash put before each double quote. *)
Inductive escapes : str -> str -> Prop :=
| escapes_nil : escapes [] []
| escapes_quote value safe :
    escapes value safe ->
    escapes (DQUOTE :: value) (BACKSLASH :: DQUOTE :: safe)
| escapes_other c value safe :
    c <> DQUOTE -> escapes value safe -> escapes (c :: value) (c :: safe).

(** The output of step 7 starts with the delimiter of a front-matter block. *)
Definition starts_with_delimiter (markdown : str) : bool :=
  startswith (lit "---") markdown.

(** The body the converter writes for a page that opens with a horizontal
    rule: the rule, a blank line, the text. *)
Definition body_with_rule : str := lit "---" ++ [LF; LF] ++ lit "Text".

(** A page whose description holds a line feed between [First] and
    [Second]: [<html><head><meta name="description" content="First
    Second"></head><body><p>Text</p></body></html>]. *)
Definition doc_broken_description : PageElement :=
  el 0 "[document]" []
    [el 1 "html" []
       [el 2 "head" []
          [Tag 3 (lit "meta")
             [(lit "name", lit "description");
              (lit "content", lit "First" ++ [LF] ++ lit "Second")] []];
        el 4 "body" [] [el 5 "p" [] [txt "Text"]]]].

(** [lines], each followed by a line feed. *)
Definition terminated (lines : list str) : str :=
  List.concat (map (fun l => l ++ [LF]) lines).

(** ** Pruning *)

(** The nodes below a list of siblings, in document order. *)
Definition forest_descendants (l : list PageElement) : list PageElement :=
  flat_map (fun c => c :: descendants c) l.

Definition prune_forest (p : PageElement -> bool) (l : list PageElement)
  : list PageElement :=
  flat_map (fun c => if p c then [] else [prune p c]) l.

(** A test that reads the identity, the name and the attributes of an
    element, and not what it contains. *)
Definition shallow (q : PageElement -> bool) : Prop :=
  forall uid name attrs contents contents',
    q (Tag uid name attrs contents) = q (Tag uid name attrs contents').

(** A test that holds of tags only. *)
Definition tags_only (q : PageElement -> bool) : Prop :=
  forall e, q e = true -> is_tag e = true.

(** Nothing below [root] satisfies [q]. *)
Definition free (q : PageElement -> bool) (root : PageElement) : Prop :=
  forall e, In e (descendants root) -> q e = false.

(** The identities of the tags of a list of nodes. *)
Definition uids_of (l : list PageElement) : list nat :=
  flat_map (fun d => match d with Tag u _ _ _ => [u] | _ => [] end) l.

(** [e] is a tag whose identity is in [U]. *)
Definition uid_in (U : list nat) (e : PageElement) : bool :=
  match e with
  | Tag u _ _ _ => existsb (Nat.eqb u) U
  | NavigableString _ => false
  end.

(** The loop [for element in matches: element.decompose()] for the
    matches of [q] below [root]. *)
Definition remove_all (q : PageElement -> bool) (root : PageElement)
  : PageElement :=
  fold_left (fun root element => decompose element root)
    (filter q (descendants root)) root.

(** *** Identities *)

(** [l] is [l'] with some of its elements left out. *)
Inductive subseq {A : Type} : list A -> list A -> Prop :=
| subseq_nil : subseq [] []
| subseq_skip x l l' : subseq l l' -> subseq l (x :: l')
| subseq_keep x l l' : subseq l l' -> subseq (x :: l) (x :: l').

(** Some rule of [rules] matches [e] in the context of [root]. *)
Definition matches_any (rules : list selector) (root e : PageElement) : bool :=
  existsb (fun s => sel_matches root s e) rules.

(** A selector that tests an element by its own name and attributes: the
    tree around the element and what the element contains play no part. *)
Definition element_local (s : selector) : Prop :=
  forall root root' uid name attrs contents contents',
    sel_matches root s (Tag uid name attrs contents)
    = sel_matches root' s (Tag uid name attrs contents').

(** [div:empty], on a tree whose strings are text: a [div] that holds no
    tag and no text but white space (space, tab, line feed, form feed,
    carriage return). *)
Definition EMPTY_DIV : selector :=
  ContextSel
    (fun _ e =>
       named (lit "div") e
       && match e with
          | Tag _ _ _ contents =>
              forallb
                (fun c =>
                   match c with
                   | Tag _ _ _ _ => false
                   | NavigableString t =>
                       forallb
                         (fun ch => existsb (N.eqb ch) [32; 9; 10; 12; 13]%N)
                         t
                   end)
                contents
          | NavigableString _ => false
          end).

(** [<main><div><span>x</span></div><p>Text</p></main>] *)
Definition root_nested_span : PageElement :=
  el 1 "main" []
    [el 2 "div" [] [el 3 "span" [] [txt "x"]]; el 4 "p" [] [txt "Text"]].

(** [<div class="content sidebar"><p>Text</p></div>], the content root of
    a page by the fourth tier. *)
Definition root_sidebar : PageElement :=
  el 1 "div" [("class", "content sidebar")] [el 2 "p" [] [txt "Text"]].

(** [<html><body><div class="content sidebar"><p>Text</p></div></body></html>] *)
Definition doc_sidebar : PageElement :=
  el 10 "[document]" [] [el 11 "html" [] [el 12 "body" [] [root_sidebar]]].

(** A parser of selector texts that, like the library's, takes a tag name
    and refuses [div[]. *)
Definition compile_names (text : str) : outcome selector :=
  if str_eqb text (lit "div[") then Raised else Returned (TypeSel text).

(** *** Elements that left the tree with an ancestor *)

(** [<main><nav>Menu<nav>Sub</nav></nav><p>Text</p>
    <div class="box sidebar">More</div>
    <form><script>s()</script></form></main>] *)
Definition root_nested_nav : PageElement :=
  el 1 "main" []
    [el 2 "nav" [] [txt "Menu"; el 3 "nav" [] [txt "Sub"]];
     el 4 "p" [] [txt "Text"];
     el 5 "div" [("class", "box sidebar")] [txt "More"];
     el 6 "form" [] [el 7 "script" [] [txt "s()"]]].

(** ** What reaches the converter *)

(** The names a content root can have. *)
Definition ROOT_NAMES : list str :=
  [lit "main"; lit "article"; lit "div"; lit "body"; lit "[document]"].

(** The names of the chrome elements of the claim. *)
Definition CHROME_NAMES : list str :=
  [lit "nav"; lit "header"; lit "footer"; lit "script"; lit "style";
   lit "form"; lit "aside"].

(** The image of [doc_full_head]. *)
Definition hero_image : PageElement :=
  el 10 "img" [("src", "/hero.jpg"); ("alt", "Hero")] [].

(** ** Token count *)

(** The token sequence of the [try] body: the encoder, then its [encode]. *)
Definition tokenize (tiktoken : Tokenizer) (TOKEN_MODEL : str)
    (_encoder : option (Encoding tiktoken)) (text : str) : outcome (list N) :=
  match fst (get_encoder tiktoken TOKEN_MODEL _encoder) with
  | Returned enc => encode tiktoken enc text
  | Raised => Raised
  end.

(** A tokenizer whose encoding cannot be loaded. *)
Definition unavailable : Tokenizer :=
  {| Encoding := unit;
     get_encoding := fun _ => Raised;
     encode := fun _ _ => Raised |}.

(** One token for every two characters, and one for a last single one. *)
Fixpoint pair_tokens (text : str) : list N :=
  match text with
  | c :: _ :: rest => c :: pair_tokens rest
  | [c] => [c]
  | [] => []
  end.

Definition LESS_THAN : N := 60.

(** A tokenizer in the manner of a byte-pair encoding: it merges
    characters into tokens, two by two, and its [encode] raises on a text
    it does not take, here one that holds [<] (as [Encoding.encode] raises
    on the text of a special token). *)
Definition pairing : Tokenizer :=
  {| Encoding := unit;
     get_encoding := fun _ => Returned tt;
     encode := fun _ text =>
       if existsb (N.eqb LESS_THAN) text then Raised
       else Returned (pair_tokens text) |}.


(** * Further definitions *)

(** ** The blank-line clean-up, continued *)

(** What the loop appends from counter [n] on. *)
Definition cleaned_from (n : Z) (lines : list str) : list str :=
  fst (fold_left clean_step lines ([], n)).

Definition is_text (line : str) : bool := negb (blank line).

(** No run of blank lines in [lines] reaches three, [k] blank lines having
    just been seen. *)
Fixpoint blank_runs_ok (k : nat) (lines : list str) : bool :=
  match lines with
  | [] => true
  | l :: more =>
      if blank l then (k <? 2)%nat && blank_runs_ok (Datatypes.S k) more
      else blank_runs_ok 0 more
  end.

(** ** Lines and line feeds *)

(** [l] holds no line boundary. *)
Definition unbroken (l : str) : bool :=
  forallb (fun c => negb (islinebreak c)) l.

(** No run of line feeds in [s] reaches four, [k] line feeds having just
    been seen. *)
Fixpoint lf_runs_ok (k : nat) (s : str) : bool :=
  match s with
  | [] => true
  | c :: more =>
      if (c =? LF)%N then (k <? 3)%nat && lf_runs_ok (Datatypes.S k) more
      else lf_runs_ok 0 more
  end.

(** ** Normalizing twice *)

(** The lines of [lines] once the blank lines in front are dropped and the
    first line of text has lost its leading whitespace. *)
Fixpoint lstrip_lines (lines : list str) : list str :=
  match lines with
  | [] => []
  | l :: more => if blank l then lstrip_lines more else lstrip l :: more
  end.

(** The same at the end of the list. *)
Fixpoint rstrip_lines (lines : list str) : list str :=
  match lines with
  | [] => []
  | l :: more =>
      match rstrip_lines more with
      | [] => if blank l then [] else [rstrip l]
      | r :: rs => l :: r :: rs
      end
  end.

(** The last line of [lines], if any, is not blank. *)
Fixpoint closes_with_text (lines : list str) : bool :=
  match lines with
  | [] => true
  | [l] => negb (blank l)
  | _ :: more => closes_with_text more
  end.

(** A line as the clean-up leaves it: empty when blank, and without a line
    boundary. *)
Definition neat (l : str) : bool :=
  (negb (blank l) || str_eqb l []) && unbroken l.

(** ** Metadata, continued *)

(** [<html><body><p>Hello World</p></body></html>] *)
Definition doc_minimal : PageElement :=
  el 0 "[document]" []
    [el 1 "html" [] [el 2 "body" [] [el 3 "p" [] [txt "Hello World"]]]].

(** ** Pruning, continued *)

(** [e] is below [root], and neither [e] nor an element between [root] and
    [e] satisfies [p]. *)
Inductive kept_path (p : PageElement -> bool)
  : PageElement -> PageElement -> Prop :=
| kept_child u n a cs c :
    In c cs -> p c = false -> kept_path p (Tag u n a cs) c
| kept_deeper u n a cs c e :
    In c cs -> p c = false -> kept_path p c e ->
    kept_path p (Tag u n a cs) e.

(** ** The encoder cache *)

(** The cache is empty or holds the encoder that [get_encoding] returns. *)
Definition cache_sound (tiktoken : Tokenizer) (TOKEN_MODEL : str)
    (cache : option (Encoding tiktoken)) : Prop :=
  match cache with
  | None => True
  | Some enc => get_encoding tiktoken TOKEN_MODEL = Returned enc
  end.

(** The counts of a sequence of calls, the cache passed from one call to
    the next. *)
Fixpoint count_each (tiktoken : Tokenizer) (TOKEN_MODEL : str)
    (cache : option (Encoding tiktoken)) (texts : list str)
  : list (outcome Z) * option (Encoding tiktoken) :=
  match texts with
  | [] => ([], cache)
  | text :: more =>
      let '(count, cache) := count_tokens tiktoken TOKEN_MODEL cache text in
      let '(counts, cache) := count_each tiktoken TOKEN_MODEL cache more in
      (count :: counts, cache)
  end.

(** ** The selectors of the environment *)

Definition COMMA : N := 44.

(** [s.split(sep)] for a one-character [sep]; [piece] is the piece being
    read. The empty string gives one empty piece. *)
Fixpoint str_split_from (sep : N) (piece s : str) : list str :=
  match s with
  | [] => [piece]
  | c :: rest =>
      if (c =? sep)%N then piece :: str_split_from sep [] rest
      else str_split_from sep (piece ++ [c]) rest
  end.

Definition str_split (sep : N) (s : str) : list str :=
  str_split_from sep [] s.

(** The selector texts that [STRIP_SELECTORS.extend] receives for a value
    [EXTRA_STRIP] of the environment variable: nothing for the empty value,
    else the pieces between commas, trimmed, the empty ones left out. *)
Definition extra_strip_texts (EXTRA_STRIP : str) : list str :=
  if truthy EXTRA_STRIP
  then map strip
         (filter (fun s => truthy (strip s)) (str_split COMMA EXTRA_STRIP))
  else [].

(** ** Escaping, continued *)

(** The [value.replace] of step 7: a backslash is put before each double
    quote. *)
Definition safe_value (value : str) : str :=
  replace_char DQUOTE [BACKSLASH; DQUOTE] value.

(** ** The base of the origin URL *)

Definition SLASH : N := 47.

(** [s.lstrip(chars)] for a one-character [chars]; [rstrip_char] is
    [s.rstrip(chars)]. *)
Fixpoint lstrip_char (ch : N) (s : str) : str :=
  match s with
  | [] => []
  | c :: rest => if (c =? ch)%N then lstrip_char ch rest else s
  end.

Definition rstrip_char (ch : N) (s : str) : str :=
  rev (lstrip_char ch (rev s)).

(** The base [urljoin] is given in [convert]:
    [ORIGIN_BASE_URL.rstrip("/") + "/"]. *)
Definition origin_base (ORIGIN_BASE_URL : str) : str :=
  rstrip_char SLASH ORIGIN_BASE_URL ++ [SLASH].


(** * Properties *)

(** ** Strings *)

Lemma str_eqb_eq (a b : str) : str_eqb a b = true <-> a = b.
Proof.
  revert b; induction a as [|x a IH]; intros [|y b]; simpl;
    try (split; [discriminate | discriminate]); try tauto.
  rewrite andb_true_iff, N.eqb_eq, IH.
  split; [intros [-> ->]; reflexivity | intros H; inversion H; auto].
Qed.

Lemma str_eqb_refl (a : str) : str_eqb a a = true.
Proof. apply str_eqb_eq; reflexivity. Qed.

Lemma str_eqb_neq (a b : str) : str_eqb a b = false <-> a <> b.
Proof.
  rewrite <- str_eqb_eq. destruct (str_eqb a b); split; congruence.
Qed.

Lemma lstrip_split (s : str) :
  exists lead, s = lead ++ lstrip s /\ forallb isspace lead = true.
Proof.
  induction s as [|c s [lead [E A]]]; simpl.
  - exists []; auto.
  - destruct (isspace c) eqn:Hc.
    + exists (c :: lead); simpl; rewrite Hc, A; split; [congruence | reflexivity].
    + exists []; auto.
Qed.

Lemma lstrip_head (s : str) :
  match lstrip s with [] => True | c :: _ => isspace c = false end.
Proof.
  induction s as [|c s IH]; simpl; [exact I|].
  destruct (isspace c) eqn:Hc; [exact IH | exact Hc].
Qed.

Lemma lstrip_nil_iff (s : str) : lstrip s = [] <-> blank s = true.
Proof.
  unfold blank; induction s as [|c s IH]; simpl; [tauto|].
  destruct (isspace c); simpl; [exact IH | split; discriminate].
Qed.

Lemma blank_rev (s : str) : blank (rev s) = blank s.
Proof.
  unfold blank. induction s as [|c s IH]; simpl; [reflexivity|].
  rewrite forallb_app, IH; simpl. rewrite andb_true_r. apply andb_comm.
Qed.

Lemma rstrip_split (s : str) :
  exists trail, s = rstrip s ++ trail /\ forallb isspace trail = true.
Proof.
  unfold rstrip. destruct (lstrip_split (rev s)) as [lead [E A]].
  exists (rev lead). split.
  - rewrite <- rev_app_distr, <- E, rev_involutive; reflexivity.
  - exact (eq_trans (blank_rev lead) A).
Qed.

Lemma rstrip_last (s : str) :
  match rev (rstrip s) with [] => True | c :: _ => isspace c = false end.
Proof. unfold rstrip. rewrite rev_involutive. apply lstrip_head. Qed.

Lemma rstrip_head (s : str) :
  match s with [] => True | c :: _ => isspace c = false end ->
  match rstrip s with [] => s = [] | c :: _ => isspace c = false end.
Proof.
  intros H. destruct (rstrip_split s) as [trail [E A]].
  destruct (rstrip s) as [|c r].
  - simpl in E; subst trail. destruct s as [|c s]; [reflexivity|].
    simpl in A. rewrite H in A. discriminate.
  - rewrite E in H. exact H.
Qed.

Lemma strip_nil_iff (s : str) : strip s = [] <-> blank s = true.
Proof.
  unfold strip, rstrip. split.
  - intros H. apply (f_equal (@rev N)) in H. rewrite rev_involutive in H.
    simpl in H. apply lstrip_nil_iff in H. rewrite blank_rev in H.
    destruct (lstrip_split s) as [lead [E A]]. rewrite E.
    unfold blank in *. rewrite forallb_app, A, H. reflexivity.
  - intros H. apply lstrip_nil_iff in H. rewrite H. reflexivity.
Qed.

Lemma strip_blank (line : str) : str_eqb (strip line) [] = blank line.
Proof.
  destruct (blank line) eqn:B.
  - apply str_eqb_eq, strip_nil_iff, B.
  - apply str_eqb_neq. intros H. apply strip_nil_iff in H. congruence.
Qed.

(** [strip] takes whitespace off both ends, and nothing else. *)
Lemma strip_spec (s : str) :
  exists lead trail,
    s = lead ++ strip s ++ trail
    /\ forallb isspace lead = true /\ forallb isspace trail = true
    /\ match strip s with [] => True | c :: _ => isspace c = false end
    /\ match rev (strip s) with [] => True | c :: _ => isspace c = false end.
Proof.
  destruct (lstrip_split s) as [lead [E A]].
  destruct (rstrip_split (lstrip s)) as [trail [E' A']].
  exists lead, trail. unfold strip. repeat split; auto.
  - rewrite <- E'. exact E.
  - pose proof (rstrip_head (lstrip s) (lstrip_head s)) as H.
    destruct (rstrip (lstrip s)); [exact I | exact H].
  - apply rstrip_last.
Qed.

(** ** The blank-line clean-up *)

Lemma clean_step_eq (cleaned : list str) (n : Z) (line : str) :
  clean_step (cleaned, n) line = (cleaned ++ emitted n line, counted n line).
Proof.
  unfold clean_step, emitted, counted. rewrite strip_blank.
  destruct (blank line); [|reflexivity].
  destruct (n + 1 <=? 2)%Z; [reflexivity | rewrite app_nil_r; reflexivity].
Qed.

Lemma clean_fold_from (lines : list str) :
  forall cleaned n,
    fold_left clean_step lines (cleaned, n)
    = (cleaned ++ fst (fold_left clean_step lines ([], n)),
       snd (fold_left clean_step lines ([], n))).
Proof.
  induction lines as [|l lines IH]; intros cleaned n; cbn [fold_left].
  - cbn [fst snd]. rewrite app_nil_r; reflexivity.
  - rewrite !clean_step_eq. cbn [app].
    rewrite (IH (cleaned ++ emitted n l)), (IH (emitted n l)). cbn [fst snd].
    rewrite app_assoc. reflexivity.
Qed.

Lemma clean_app (before after : list str) :
  clean_blank_lines (before ++ after)
  = clean_blank_lines before
    ++ fst (fold_left clean_step after ([], blank_count_after 0 before)).
Proof.
  unfold clean_blank_lines, blank_count_after. rewrite fold_left_app.
  destruct (fold_left clean_step before ([], 0%Z)) as [c n] eqn:E.
  rewrite clean_fold_from. reflexivity.
Qed.

Lemma count_after_text (lines : list str) :
  ends_in_text lines = true -> blank_count_after 0 lines = 0%Z.
Proof.
  unfold ends_in_text, blank_count_after.
  destruct (rev lines) as [|l r] eqn:E.
  - intros _. apply (f_equal (@rev str)) in E. rewrite rev_involutive in E.
    subst lines. reflexivity.
  - intros B. apply (f_equal (@rev str)) in E. rewrite rev_involutive in E.
    subst lines. simpl. rewrite fold_left_app. simpl.
    destruct (fold_left clean_step (rev r) ([], 0%Z)) as [c n].
    cbn [fold_left]. rewrite clean_step_eq. unfold counted. cbn [snd].
    destruct (blank l); [discriminate | reflexivity].
Qed.

Lemma text_first_any_count (lines : list str) (n : Z) :
  begins_with_text lines = true ->
  fst (fold_left clean_step lines ([], n)) = clean_blank_lines lines.
Proof.
  unfold begins_with_text, clean_blank_lines.
  destruct lines as [|l lines]; [reflexivity|]. intros B. cbn [fold_left].
  rewrite !clean_step_eq. unfold emitted, counted.
  destruct (blank l); [discriminate | reflexivity].
Qed.

Lemma blank_run_from (run : list str) :
  forallb blank run = true ->
  forall n, (0 <= n)%Z ->
    fold_left clean_step run ([], n)
    = (repeat [] (Nat.min (List.length run) (Z.to_nat (2 - n))),
       (n + Z.of_nat (List.length run))%Z).
Proof.
  induction run as [|l run IH]; intros B n Hn.
  - simpl. f_equal. lia.
  - simpl in B. apply andb_true_iff in B. destruct B as [Bl B].
    cbn [fold_left]. rewrite clean_step_eq. unfold emitted, counted.
    rewrite Bl. rewrite clean_fold_from, (IH B) by lia. cbn [fst snd].
    f_equal; [|simpl List.length; lia].
    destruct (Z.leb_spec (n + 1) 2).
    + replace (Z.to_nat (2 - n)) with (Datatypes.S (Z.to_nat (2 - (n + 1)))) by lia.
      reflexivity.
    + replace (Z.to_nat (2 - n)) with 0%nat by lia.
      replace (Z.to_nat (2 - (n + 1))) with 0%nat by lia.
      rewrite !Nat.min_0_r. reflexivity.
Qed.

Lemma clean_blank_run (before run after : list str) :
  ends_in_text before = true ->
  forallb blank run = true ->
  begins_with_text after = true ->
  clean_blank_lines (before ++ run ++ after)
  = clean_blank_lines before
    ++ repeat [] (Nat.min (List.length run) 2)
    ++ clean_blank_lines after.
Proof.
  intros Hb Hr Ha.
  rewrite clean_app, (count_after_text _ Hb), fold_left_app.
  rewrite (blank_run_from _ Hr 0%Z) by lia.
  rewrite clean_fold_from. cbn [fst]. rewrite (text_first_any_count _ _ Ha).
  reflexivity.
Qed.

Lemma clean_text_line (before : list str) (line : str) (after : list str) :
  blank line = false ->
  clean_blank_lines (before ++ line :: after)
  = clean_blank_lines before ++ line :: clean_blank_lines after.
Proof.
  intros B. rewrite clean_app. f_equal. cbn [fold_left].
  rewrite clean_step_eq. unfold emitted, counted. rewrite B.
  rewrite clean_fold_from. reflexivity.
Qed.

(** C2. The whitespace normalizer. Between lines of text, a run of blank
    (whitespace-only) lines comes out as as many empty lines when it has
    one or two lines, and as exactly two when it has three or more; a line
    that is not blank is kept as it is, indentation included, and what
    follows it is cleaned as from the start (the counter is back at 0); the
    result is the joined lines with the whitespace at both ends taken off. *)
Theorem normalize_whitespace_spec :
  (forall before run after,
      ends_in_text before = true ->
      forallb blank run = true ->
      begins_with_text after = true ->
      clean_blank_lines (before ++ run ++ after)
      = clean_blank_lines before
        ++ repeat [] (Nat.min (List.length run) 2)
        ++ clean_blank_lines after)
  /\ (forall before line after,
         blank line = false ->
         clean_blank_lines (before ++ line :: after)
         = clean_blank_lines before ++ line :: clean_blank_lines after)
  /\ (forall markdown_body,
         let joined :=
           join [LF] (clean_blank_lines (splitlines markdown_body)) in
         let result := normalize_whitespace markdown_body in
         exists lead trail,
           joined = lead ++ result ++ trail
           /\ forallb isspace lead = true /\ forallb isspace trail = true
           /\ match result with [] => True | c :: _ => isspace c = false end
           /\ match rev result with
              | [] => True
              | c :: _ => isspace c = false
              end).
Proof.
  split; [exact clean_blank_run | split; [exact clean_text_line |]].
  intros markdown_body joined result. exact (strip_spec joined).
Qed.

(** ** The content root *)

Lemma find_first (p : PageElement -> bool) (l : list PageElement) :
  match List.find p l with
  | Some e =>
      exists before after,
        l = before ++ e :: after /\ p e = true
        /\ forallb (fun x => negb (p x)) before = true
  | None => forallb (fun x => negb (p x)) l = true
  end.
Proof.
  induction l as [|x l IH]; simpl; [reflexivity|].
  destruct (p x) eqn:Hx.
  - exists [], l. auto.
  - destruct (List.find p l) as [e|].
    + destruct IH as [before [after [E [He Hb]]]].
      exists (x :: before), after. simpl. rewrite Hx, Hb, E. auto.
    + simpl. exact IH.
Qed.

Lemma join_two_has_sep (sep p q : str) (more : list str) (c : N) :
  In c sep -> In c (join sep (p :: q :: more)).
Proof.
  intros H. cbn [join]. apply in_or_app. right. apply in_or_app. left. exact H.
Qed.

(** For a value without a space, matching the [class] attribute is being
    one of its words. *)
Lemma class_match_is_membership (ws : list str) (value : str) :
  ~ In 32%N value -> value <> [] ->
  existsb (fun w => str_eqb w value) ws || str_eqb (join (lit " ") ws) value
  = existsb (fun w => str_eqb w value) ws.
Proof.
  intros Hsp Hne.
  destruct (existsb (fun w => str_eqb w value) ws) eqn:E; [reflexivity|].
  simpl. apply str_eqb_neq. intros J.
  destruct ws as [|w [|w' ws]].
  - simpl in J. congruence.
  - simpl in J, E. subst w. rewrite str_eqb_refl in E. discriminate.
  - apply Hsp. rewrite <- J. apply join_two_has_sep. simpl. auto.
Qed.

Lemma find_matches_name (n : str) (e : PageElement) :
  find_matches n [] e = named n e.
Proof. unfold find_matches. simpl. apply andb_true_r. Qed.

Lemma find_matches_div_id (e : PageElement) :
  find_matches (lit "div") [(lit "id", lit "content")] e
  = named (lit "div") e && has_id (lit "content") e.
Proof.
  unfold find_matches, has_id. f_equal. cbn [forallb attr_matches].
  rewrite andb_true_r.
  destruct (get (lit "id") e); reflexivity.
Qed.

Lemma find_matches_div_class (e : PageElement) :
  find_matches (lit "div") [(lit "class", lit "content")] e
  = named (lit "div") e && has_class (lit "content") e.
Proof.
  unfold find_matches, has_class, class_list. f_equal.
  cbn [forallb attr_matches]. rewrite andb_true_r.
  destruct (get (lit "class") e) as [v|]; [|reflexivity].
  replace (str_eqb (lit "class") (lit "class")) with true by reflexivity.
  apply class_match_is_membership.
  - vm_compute. intuition discriminate.
  - discriminate.
Qed.

Lemma list_find_ext {A : Type} (p q : A -> bool) (l : list A) :
  (forall x, p x = q x) -> List.find p l = List.find q l.
Proof.
  intros H. induction l as [|x l IH]; simpl; [reflexivity|].
  rewrite H, IH. reflexivity.
Qed.

Lemma find_spec (n : str) (attrs : list (str * str)) (p : PageElement -> bool)
    (soup : PageElement) :
  (forall e, find_matches n attrs e = p e) ->
  match find n attrs soup with
  | Some e => first_in_document p soup e
  | None => none_in_document p soup
  end.
Proof.
  intros H. unfold find, first_in_document, none_in_document.
  rewrite (list_find_ext _ _ _ H).
  apply find_first.
Qed.

(** C1, as the code has it. The content root is the first match of a fixed
    chain: the first [main] element in document order; failing that the
    first [article]; failing that the first [div] whose [id] is [content];
    failing that the first [div] whose class list contains [content];
    failing that the first [body]; failing that the document itself. The
    function is total: there is always a root. *)
Theorem content_root_chain (soup : PageElement) :
  let root := content_root soup in
  first_in_document is_main soup root
  \/ none_in_document is_main soup
     /\ (first_in_document is_article soup root
  \/ none_in_document is_article soup
     /\ (first_in_document is_content_id_div soup root
  \/ none_in_document is_content_id_div soup
     /\ (first_in_document is_content_class_div soup root
  \/ none_in_document is_content_class_div soup
     /\ (first_in_document is_body soup root
  \/ none_in_document is_body soup
     /\ root = soup)))).
Proof.
  unfold content_root.
  pose proof (find_spec (lit "main") [] is_main soup
                (find_matches_name _)) as H1.
  destruct (find (lit "main") [] soup); [left; exact H1 | right; split; [exact H1|]].
  pose proof (find_spec (lit "article") [] is_article soup
                (find_matches_name _)) as H2.
  destruct (find (lit "article") [] soup); [left; exact H2 | right; split; [exact H2|]].
  pose proof (find_spec (lit "div") [(lit "id", lit "content")]
                is_content_id_div soup find_matches_div_id) as H3.
  destruct (find (lit "div") [(lit "id", lit "content")] soup);
    [left; exact H3 | right; split; [exact H3|]].
  pose proof (find_spec (lit "div") [(lit "class", lit "content")]
                is_content_class_div soup find_matches_div_class) as H4.
  destruct (find (lit "div") [(lit "class", lit "content")] soup);
    [left; exact H4 | right; split; [exact H4|]].
  pose proof (find_spec (lit "body") [] is_body soup
                (find_matches_name _)) as H5.
  destruct (find (lit "body") [] soup); [left; exact H5 | right; split; [exact H5|]].
  reflexivity.
Qed.

(** C1, as the specification words it, fails: a [section] whose [id] is
    [content] is the root by the specification's third tier, and the code,
    which looks at [div] elements only, falls through to [body]. *)
Lemma content_root_not_any_element :
  tag_name (spec_content_root doc_section_content) = Some (lit "section")
  /\ tag_name (content_root doc_section_content) = Some (lit "body").
Proof. split; vm_compute; reflexivity. Qed.

(** ** Metadata *)

Lemma set_from_content_entry (key : str) (tag : option PageElement)
    (meta : dict) :
  set_from_content key tag meta
  = match entry (match tag with
                 | Some t => get (lit "content") t
                 | None => None
                 end) with
    | Some v => dict_set key v meta
    | None => meta
    end.
Proof.
  unfold set_from_content, entry.
  destruct tag as [t|]; [|reflexivity].
  destruct (get (lit "content") t) as [c|]; [|reflexivity].
  destruct (truthy c); reflexivity.
Qed.

(** The mapping is the present items, in the fixed order. *)
Lemma extract_metadata_items (soup : PageElement) :
  extract_metadata soup
  = item (lit "title") (entry (title_source soup))
    ++ item (lit "description")
         (entry (meta_source (lit "name") (lit "description") soup))
    ++ item (lit "author")
         (entry (meta_source (lit "name") (lit "author") soup))
    ++ item (lit "keywords")
         (entry (meta_source (lit "name") (lit "keywords") soup))
    ++ item (lit "image")
         (entry (meta_source (lit "property") (lit "og:image") soup)).
Proof.
  unfold extract_metadata. cbn [fold_left].
  rewrite !set_from_content_entry.
  fold (meta_source (lit "name") (lit "description") soup).
  fold (meta_source (lit "name") (lit "author") soup).
  fold (meta_source (lit "name") (lit "keywords") soup).
  fold (meta_source (lit "property") (lit "og:image") soup).
  replace (match find (lit "title") [] soup with
           | Some t =>
               match string_of t with
               | Some s =>
                   if truthy s then dict_set (lit "title") (strip s) [] else []
               | None => []
               end
           | None => []
           end)
    with (item (lit "title") (entry (title_source soup))).
  2:{ unfold title_source, entry.
      destruct (find (lit "title") [] soup) as [t|]; [|reflexivity].
      destruct (string_of t) as [s|]; [|reflexivity].
      destruct (truthy s); reflexivity. }
  destruct (entry (title_source soup));
    destruct (entry (meta_source (lit "name") (lit "description") soup));
    destruct (entry (meta_source (lit "name") (lit "author") soup));
    destruct (entry (meta_source (lit "name") (lit "keywords") soup));
    destruct (entry (meta_source (lit "property") (lit "og:image") soup));
    reflexivity.
Qed.

Lemma first_in_document_find (p : PageElement -> bool)
    (soup e : PageElement) :
  first_in_document p soup e -> List.find p (descendants soup) = Some e.
Proof.
  intros [before [after [E [He Hb]]]]. rewrite E. clear E.
  induction before as [|x before IH]; simpl in *.
  - rewrite He. reflexivity.
  - apply andb_true_iff in Hb. destruct Hb as [Hx Hb].
    apply negb_true_iff in Hx. rewrite Hx. apply IH, Hb.
Qed.



Lemma title_source_first (soup t : PageElement) :
  first_in_document is_title soup t -> title_source soup = string_of t.
Proof.
  intros H. apply first_in_document_find in H. unfold title_source, find.
  rewrite (list_find_ext _ is_title _ (find_matches_name _)), H. reflexivity.
Qed.






(** The keys of the mapping are the present ones of the fixed order, in
    that order. *)
Lemma extract_metadata_key_order (soup : PageElement) :
  keys (extract_metadata soup)
  = filter (has_key (extract_metadata soup)) KEY_ORDER.
Proof.
  rewrite extract_metadata_items.
  destruct (entry (title_source soup));
    destruct (entry (meta_source (lit "name") (lit "description") soup));
    destruct (entry (meta_source (lit "name") (lit "author") soup));
    destruct (entry (meta_source (lit "name") (lit "keywords") soup));
    destruct (entry (meta_source (lit "property") (lit "og:image") soup));
    reflexivity.
Qed.



(** C5 at [doc_blank_title]: a title of one space passes the emptiness test
    before it is trimmed, and the mapping holds an empty title. *)
Lemma extract_metadata_blank_title :
  extract_metadata doc_blank_title = [(lit "title", [])].
Proof. vm_compute. reflexivity. Qed.

(** ** Front matter *)

Lemma replace_quote_escapes (value : str) :
  escapes value (replace_char DQUOTE [BACKSLASH; DQUOTE] value).
Proof.
  unfold replace_char. induction value as [|c value IH]; simpl.
  - constructor.
  - destruct (N.eqb_spec c DQUOTE) as [->|Hc]; simpl.
    + constructor. exact IH.
    + constructor; assumption.
Qed.

Lemma join_cons (sep p : str) (more : list str) :
  more <> [] -> join sep (p :: more) = p ++ sep ++ join sep more.
Proof. destruct more; [congruence | reflexivity]. Qed.

Lemma join_app (sep : str) (l1 l2 : list str) :
  l1 <> [] -> l2 <> [] ->
  join sep (l1 ++ l2) = join sep l1 ++ sep ++ join sep l2.
Proof.
  intros H1 H2. induction l1 as [|p l1 IH]; [congruence|].
  destruct l1 as [|q l1].
  - simpl app. rewrite join_cons by assumption. reflexivity.
  - change ((p :: q :: l1) ++ l2) with (p :: (q :: l1) ++ l2).
    rewrite join_cons by discriminate. rewrite IH by discriminate.
    rewrite (join_cons sep p (q :: l1)) by discriminate.
    rewrite <- !app_assoc. reflexivity.
Qed.

Lemma splitlines_from_unbroken_app l :
  unbroken l = true ->
  forall line rest,
    splitlines_from line (l ++ rest) = splitlines_from (line ++ l) rest.
Proof.
  induction l as [|c l IH]; intros Hu line rest.
  - rewrite app_nil_r. reflexivity.
  - unfold unbroken in Hu. cbn [forallb] in Hu.
    apply andb_true_iff in Hu. destruct Hu as [Hc Hu].
    apply negb_true_iff in Hc.
    cbn [app splitlines_from]. rewrite Hc.
    rewrite (IH Hu). rewrite <- app_assoc. reflexivity.
Qed.

Lemma splitlines_from_lf line rest :
  splitlines_from line (LF :: rest) = line :: splitlines_from [] rest.
Proof. destruct rest; reflexivity. Qed.

(** [splitlines] gives back lines that hold no line boundary and are each
    followed by a line feed, and goes on with what follows them. *)
Lemma splitlines_terminated lines rest :
  (forall l, In l lines -> unbroken l = true) ->
  splitlines (terminated lines ++ rest) = lines ++ splitlines rest.
Proof.
  unfold splitlines, terminated.
  induction lines as [|l lines IH]; intros Hu; [reflexivity|].
  cbn [map List.concat]. rewrite <- !app_assoc.
  rewrite splitlines_from_unbroken_app by (apply Hu; left; reflexivity).
  cbn [app]. rewrite splitlines_from_lf. f_equal.
  apply IH. intros x Hx. apply Hu. right. exact Hx.
Qed.

Lemma join_terminated (lines : list str) (rest : str) :
  lines <> [] ->
  join [LF] lines ++ [LF] ++ rest = terminated lines ++ rest.
Proof.
  unfold terminated.
  induction lines as [|l lines IH]; intros H; [congruence|].
  destruct lines as [|l' lines].
  - cbn [join map List.concat]. rewrite app_nil_r, <- app_assoc. reflexivity.
  - change (join [LF] (l :: l' :: lines))
      with (l ++ [LF] ++ join [LF] (l' :: lines)).
    change (List.concat (map (fun l => l ++ [LF]) (l :: l' :: lines)))
      with ((l ++ [LF])
            ++ List.concat (map (fun l => l ++ [LF]) (l' :: lines))).
    rewrite <- !app_assoc. f_equal. f_equal.
    apply IH. discriminate.
Qed.

Lemma unbroken_app a b :
  unbroken (a ++ b) = unbroken a && unbroken b.
Proof. apply forallb_app. Qed.

Lemma unbroken_replace_quote value :
  unbroken value = true ->
  unbroken (replace_char DQUOTE [BACKSLASH; DQUOTE] value) = true.
Proof.
  induction value as [|c value IH]; [reflexivity|].
  unfold unbroken in *. cbn [forallb replace_char flat_map].
  intros H. apply andb_true_iff in H. destruct H as [Hc H].
  fold (replace_char DQUOTE [BACKSLASH; DQUOTE] value).
  rewrite forallb_app, (IH H), andb_true_r.
  destruct (N.eqb_spec c DQUOTE); [reflexivity|].
  cbn [forallb]. rewrite Hc. reflexivity.
Qed.

Lemma unbroken_front_matter_line key value :
  unbroken key = true -> unbroken value = true ->
  unbroken (front_matter_line (key, value)) = true.
Proof.
  intros Hk Hv. unfold front_matter_line.
  rewrite !unbroken_app, Hk, (unbroken_replace_quote value Hv). reflexivity.
Qed.

Lemma extract_metadata_keys_unbroken soup key value :
  In (key, value) (extract_metadata soup) -> unbroken key = true.
Proof.
  intros H.
  assert (In key (keys (extract_metadata soup))) as Hk
    by (unfold keys; apply in_map_iff; exists (key, value); auto).
  rewrite extract_metadata_key_order in Hk. apply filter_In in Hk.
  destruct Hk as [Hk _]. unfold KEY_ORDER in Hk. simpl in Hk.
  repeat (destruct Hk as [<-|Hk]; [reflexivity|]). destruct Hk.
Qed.

(** With metadata, the output read line by line, when no key and no value
    holds a line boundary. *)
Lemma front_matter_lines metadata body :
  metadata <> [] ->
  (forall key value, In (key, value) metadata ->
                     unbroken key = true /\ unbroken value = true) ->
  splitlines (build_front_matter metadata body)
  = [lit "---"] ++ map front_matter_line metadata ++ [lit "---"; []]
    ++ splitlines body.
Proof.
  intros Hne Hu. destruct metadata as [|m metadata]; [congruence|].
  unfold build_front_matter.
  set (items := m :: metadata) in *.
  change ([LF; LF] ++ body) with ([LF] ++ ([] ++ [LF]) ++ body).
  rewrite join_terminated
    by (destruct (map front_matter_line items); discriminate).
  change ((([] : str) ++ [LF]) ++ body) with (terminated [[]] ++ body).
  rewrite app_assoc.
  assert (forall a b, terminated a ++ terminated b = terminated (a ++ b))
    as Happ
    by (intros a b; unfold terminated; rewrite map_app, concat_app;
        reflexivity).
  rewrite Happ, splitlines_terminated.
  - rewrite <- !app_assoc. reflexivity.
  - intros l Hl. rewrite !in_app_iff in Hl.
    destruct Hl as [[Hl|[Hl|Hl]]|Hl].
    + destruct Hl as [<-|[]]. reflexivity.
    + apply in_map_iff in Hl. destruct Hl as [[k v] [<- Hin]].
      destruct (Hu k v Hin) as [Hk Hv].
      exact (unbroken_front_matter_line k v Hk Hv).
    + destruct Hl as [<-|[]]. reflexivity.
    + destruct Hl as [<-|[]]. reflexivity.
Qed.

(** C3, as the code has it. With no metadata the output is the body as it
    is. With metadata the output is [---], an entry per item in the order
    of the mapping, [---], the empty string and the body, joined by line
    feeds; an entry is the key, a colon and a space, and between double
    quotes the value with a backslash before each of its double quotes.
    When no key and no value holds a line boundary, the lines of the output
    are exactly [---], one line per item, [---], an empty line, and the
    lines of the body. The mapping handed to this step is the extracted
    one, whose keys are the present ones of title, description, author,
    keywords, image, in that order; so the output of the conversion has
    these lines whenever no extracted value holds a line boundary. *)
Theorem front_matter_spec :
  (forall body, build_front_matter [] body = body)
  /\ (forall metadata body,
         metadata <> [] ->
         build_front_matter metadata body
         = join [LF]
             ([lit "---"] ++ map front_matter_line metadata
              ++ [lit "---"; []; body]))
  /\ (forall metadata body,
         metadata <> [] ->
         (forall key value, In (key, value) metadata ->
                            unbroken key = true /\ unbroken value = true) ->
         splitlines (build_front_matter metadata body)
         = [lit "---"] ++ map front_matter_line metadata ++ [lit "---"; []]
           ++ splitlines body)
  /\ (forall key value,
         exists safe,
           front_matter_line (key, value)
           = key ++ lit ": " ++ [DQUOTE] ++ safe ++ [DQUOTE]
           /\ escapes value safe)
  /\ (forall to_html md extra soup,
         convert_soup to_html md extra soup
         = (build_front_matter (extract_metadata soup)
              (normalize_whitespace (md (to_html (pruned_root extra soup)))),
            extract_metadata soup))
  /\ (forall soup,
         keys (extract_metadata soup)
         = filter (has_key (extract_metadata soup)) KEY_ORDER)
  /\ (forall to_html md extra soup,
         extract_metadata soup <> [] ->
         (forall key value, In (key, value) (extract_metadata soup) ->
                            unbroken value = true) ->
         splitlines (fst (convert_soup to_html md extra soup))
         = [lit "---"] ++ map front_matter_line (extract_metadata soup)
           ++ [lit "---"; []]
           ++ splitlines
                (normalize_whitespace
                   (md (to_html (pruned_root extra soup))))).
Proof.
  split; [reflexivity|]. split; [|split; [exact front_matter_lines|]].
  - intros metadata body H. destruct metadata as [|m metadata]; [congruence|].
    unfold build_front_matter.
    set (block := [lit "---"] ++ map front_matter_line (m :: metadata)
                  ++ [lit "---"]).
    replace ([lit "---"] ++ map front_matter_line (m :: metadata)
             ++ [lit "---"; []; body])
      with (block ++ [[]; body])
      by (unfold block; rewrite <- !app_assoc; reflexivity).
    rewrite (join_app [LF] block [[]; body]) by discriminate.
    reflexivity.
  - split; [|split; [reflexivity|
             split; [exact extract_metadata_key_order|]]].
    + intros key value.
      exists (replace_char DQUOTE [BACKSLASH; DQUOTE] value).
      split; [reflexivity | apply replace_quote_escapes].
    + intros to_html md extra soup Hne Hv. unfold convert_soup. cbn [fst].
      apply front_matter_lines; [exact Hne|].
      intros key value Hin. split; [|exact (Hv key value Hin)].
      exact (extract_metadata_keys_unbroken soup key value Hin).
Qed.

(** C3, as the specification words it, fails in its last part: with no
    metadata the body passes through as it is, and a body that opens with a
    horizontal rule makes the output start with [---]. Nor is an entry
    always one line: a value is written with the line feeds it holds, so
    the description of [doc_broken_description] takes two lines. *)
Lemma front_matter_not_as_worded :
  (build_front_matter [] body_with_rule = body_with_rule
   /\ starts_with_delimiter (build_front_matter [] body_with_rule) = true)
  /\ (extract_metadata doc_broken_description
      = [(lit "description", lit "First" ++ [LF] ++ lit "Second")]
      /\ splitlines
           (build_front_matter (extract_metadata doc_broken_description)
              (lit "Text"))
         = [lit "---"; lit "description: " ++ [DQUOTE] ++ lit "First";
            lit "Second" ++ [DQUOTE]; lit "---"; []; lit "Text"]).
Proof.
  split; split; vm_compute; reflexivity.
Qed.

Lemma front_matter_witness :
  splitlines
    (build_front_matter [(lit "title", lit "Home"); (lit "author", lit "Ann")]
       (lit "Text"))
  = [lit "---"; front_matter_line (lit "title", lit "Home");
     front_matter_line (lit "author", lit "Ann"); lit "---"; []; lit "Text"].
Proof.
  apply (proj1 (proj2 (proj2 front_matter_spec))
           [(lit "title", lit "Home"); (lit "author", lit "Ann")]
           (lit "Text")).
  - discriminate.
  - intros key value [E|[E|[]]]; inversion E; split; reflexivity.
Defined.

(** ** Pruning *)

Lemma descendants_tag uid name attrs contents :
  descendants (Tag uid name attrs contents) = forest_descendants contents.
Proof.
  simpl. induction contents as [|c l IH]; simpl; [reflexivity|].
  rewrite IH. reflexivity.
Qed.

Lemma prune_tag p uid name attrs contents :
  prune p (Tag uid name attrs contents)
  = Tag uid name attrs (prune_forest p contents).
Proof.
  simpl. f_equal. induction contents as [|c l IH]; simpl; [reflexivity|].
  rewrite IH. destruct (p c); reflexivity.
Qed.

Lemma forest_descendants_cons c l :
  forest_descendants (c :: l) = c :: descendants c ++ forest_descendants l.
Proof. reflexivity. Qed.

Lemma in_forest_descendants e c l :
  In e (forest_descendants (c :: l))
  <-> e = c \/ In e (descendants c) \/ In e (forest_descendants l).
Proof.
  rewrite forest_descendants_cons. simpl. rewrite in_app_iff.
  split; [intros [H|H]; auto | intros [H|H]; auto].
Qed.

Lemma shallow_prune q p e : shallow q -> q (prune p e) = q e.
Proof.
  intros H. destruct e as [s|u n a cs]; [reflexivity|].
  rewrite prune_tag. apply H.
Qed.

Lemma shallow_has_uid u : shallow (has_uid u).
Proof. intros uid name attrs c c'. reflexivity. Qed.

Lemma shallow_named n : shallow (named n).
Proof. intros uid name attrs c c'. reflexivity. Qed.

Lemma shallow_find_matches n attrs : shallow (find_matches n attrs).
Proof. intros uid name a c c'. reflexivity. Qed.

Lemma type_sel_local n : element_local (TypeSel n).
Proof. intros r r' uid name attrs c c'. reflexivity. Qed.

Lemma class_sel_local c : element_local (ClassSel c).
Proof. intros r r' uid name attrs cs cs'. reflexivity. Qed.

Lemma id_sel_local i : element_local (IdSel i).
Proof. intros r r' uid name attrs c c'. reflexivity. Qed.

Lemma attr_sel_local a x : element_local (AttrSel a x).
Proof. intros r r' uid name attrs c c'. reflexivity. Qed.

Create HintDb selectors.

#[local] Hint Resolve type_sel_local class_sel_local id_sel_local
  attr_sel_local : selectors.

Lemma default_rules_local : Forall element_local DEFAULT_STRIP_SELECTORS.
Proof.
  unfold DEFAULT_STRIP_SELECTORS. repeat constructor; auto with selectors.
Qed.

Lemma shallow_sel_matches root s :
  element_local s -> shallow (sel_matches root s).
Proof. intros H uid name attrs c c'. apply H. Qed.

(** For such a selector the tree that [select] is called on plays no
    part. *)
Lemma element_local_any_root s root root' e :
  element_local s -> sel_matches root s e = sel_matches root' s e.
Proof.
  intros H. destruct e as [t|u n a cs]; [reflexivity | apply H].
Qed.

Lemma tags_only_sel_matches root s : tags_only (sel_matches root s).
Proof.
  intros e H. unfold sel_matches in H. apply andb_true_iff in H. tauto.
Qed.

Lemma tags_only_find_matches n attrs : tags_only (find_matches n attrs).
Proof.
  intros e H. destruct e; [discriminate | reflexivity].
Qed.

Lemma prune_prune p q root :
  shallow q ->
  prune q (prune p root) = prune (fun e => p e || q e) root.
Proof.
  intros Hq.
  induction root as [s|u n a cs IH] using PageElement_nested_ind;
    [reflexivity|].
  rewrite !prune_tag. f_equal.
  induction IH as [|c l Hc _ IHl]; simpl; [reflexivity|].
  destruct (p c) eqn:Pc; simpl.
  - exact IHl.
  - rewrite (shallow_prune q p c Hq). destruct (q c); simpl.
    + exact IHl.
    + rewrite Hc, IHl. reflexivity.
Qed.

Lemma prune_ext_in p q root :
  (forall e, In e (descendants root) -> p e = q e) ->
  prune p root = prune q root.
Proof.
  induction root as [s|u n a cs IH] using PageElement_nested_ind;
    intros H; [reflexivity|].
  rewrite !prune_tag. f_equal. rewrite descendants_tag in H.
  induction IH as [|c l Hc _ IHl]; simpl; [reflexivity|].
  rewrite (H c) by (apply in_forest_descendants; auto).
  rewrite Hc
    by (intros e He; apply H, in_forest_descendants; auto).
  rewrite IHl
    by (intros e He; apply H, in_forest_descendants; auto).
  reflexivity.
Qed.

Lemma prune_ext p q root :
  (forall e, p e = q e) -> prune p root = prune q root.
Proof. intros H. apply prune_ext_in. intros e _. apply H. Qed.

Lemma prune_free p root : free p root -> prune p root = root.
Proof.
  unfold free.
  induction root as [s|u n a cs IH] using PageElement_nested_ind;
    intros H; [reflexivity|].
  rewrite prune_tag. f_equal. rewrite descendants_tag in H.
  induction IH as [|c l Hc _ IHl]; simpl; [reflexivity|].
  rewrite (H c) by (apply in_forest_descendants; auto).
  rewrite Hc
    by (intros e He; apply H, in_forest_descendants; auto).
  simpl. f_equal. apply IHl.
  intros e He; apply H, in_forest_descendants; auto.
Qed.

(** What is below a pruned tree is what was below the tree, pruned, and
    did not satisfy the test. *)
Lemma descendants_prune p root e' :
  In e' (descendants (prune p root)) ->
  exists e, In e (descendants root) /\ p e = false /\ e' = prune p e.
Proof.
  induction root as [s|u n a cs IH] using PageElement_nested_ind;
    [intros []|].
  rewrite prune_tag, !descendants_tag.
  induction IH as [|c l Hc _ IHl]; simpl; [intros []|].
  destruct (p c) eqn:Pc.
  - simpl. intros H. destruct (IHl H) as [e [He [Pe E]]].
    exists e. split; [|auto]. right. apply in_or_app. auto.
  - simpl. rewrite in_app_iff. intros [H|[H|H]].
    + exists c. auto.
    + destruct (Hc H) as [e [He [Pe E]]]. exists e.
      split; [|auto]. right. apply in_or_app. auto.
    + destruct (IHl H) as [e [He [Pe E]]]. exists e.
      split; [|auto]. right. apply in_or_app. auto.
Qed.

Lemma free_prune q p root : shallow q -> free q root -> free q (prune p root).
Proof.
  intros Hq H e' He'. destruct (descendants_prune p root e' He')
    as [e [He [_ ->]]].
  rewrite shallow_prune by assumption. apply H, He.
Qed.

Lemma uids_is_uids_of root : uids root = uids_of (descendants root).
Proof. reflexivity. Qed.

Lemma uid_in_app U V e : uid_in (U ++ V) e = uid_in U e || uid_in V e.
Proof. destruct e; simpl; [reflexivity | apply existsb_app]. Qed.

Lemma uid_in_uids_of e l :
  In e l -> is_tag e = true -> uid_in (uids_of l) e = true.
Proof.
  intros He Ht. destruct e as [s|u n a cs]; [discriminate|]. simpl.
  apply existsb_exists. exists u. split; [|apply Nat.eqb_refl].
  unfold uids_of. apply in_flat_map. exists (Tag u n a cs). simpl. auto.
Qed.

Lemma decompose_pruned element U root :
  decompose element (prune (uid_in U) root)
  = prune (uid_in (U ++ uids_of [element])) root.
Proof.
  destruct element as [s|u n a cs]; simpl.
  - rewrite app_nil_r. reflexivity.
  - unfold detach. rewrite prune_prune by apply shallow_has_uid.
    apply prune_ext. intros e. rewrite uid_in_app.
    destruct e; simpl; [reflexivity|]. rewrite orb_false_r. reflexivity.
Qed.

(** Decomposing a list of elements one after the other leaves the tree
    without the elements of these identities. *)
Lemma decompose_all (elements : list PageElement) :
  forall U root,
    fold_left (fun root element => decompose element root) elements
      (prune (uid_in U) root)
    = prune (uid_in (U ++ uids_of elements)) root.
Proof.
  induction elements as [|x l IH]; intros U root; simpl.
  - rewrite app_nil_r. reflexivity.
  - rewrite decompose_pruned, IH. simpl. rewrite app_nil_r, <- app_assoc.
    reflexivity.
Qed.

Lemma remove_all_prune q root :
  remove_all q root
  = prune (uid_in (uids_of (filter q (descendants root)))) root.
Proof.
  unfold remove_all.
  rewrite <- (prune_free (uid_in []) root) at 2
    by (intros e _; destruct e; reflexivity).
  rewrite decompose_all. reflexivity.
Qed.

Lemma remove_all_free q root :
  shallow q -> tags_only q -> free q (remove_all q root).
Proof.
  intros Hs Ht e' He'. rewrite remove_all_prune in He'.
  destruct (descendants_prune _ root e' He') as [e [He [Ue ->]]].
  rewrite shallow_prune by assumption.
  destruct (q e) eqn:Qe; [|reflexivity].
  rewrite uid_in_uids_of in Ue; [discriminate | | apply Ht, Qe].
  apply filter_In. auto.
Qed.

Lemma remove_all_keeps_free q q' root :
  shallow q' -> free q' root -> free q' (remove_all q root).
Proof. intros Hs H. rewrite remove_all_prune. apply free_prune; assumption. Qed.

Lemma remove_images_is_remove_all root :
  remove_images root = remove_all (find_matches (lit "img") []) root.
Proof. reflexivity. Qed.

Lemma strip_keeps_free q rules :
  shallow q ->
  forall root, free q root -> free q (strip_non_content rules root).
Proof.
  intros Hs.
  induction rules as [|s rules IH]; intros root H; [exact H|].
  change (strip_non_content (s :: rules) root)
    with (strip_non_content rules (remove_all (sel_matches root s) root)).
  apply IH. apply remove_all_keeps_free; assumption.
Qed.

(** After the loops, nothing below the root matches a rule that tests an
    element by its own name and attributes. *)
Lemma strip_free rules :
  forall root context s,
    In s rules -> element_local s ->
    free (sel_matches context s) (strip_non_content rules root).
Proof.
  induction rules as [|r rules IH]; intros root context s Hin Hl;
    [destruct Hin|].
  change (strip_non_content (r :: rules) root)
    with (strip_non_content rules (remove_all (sel_matches root r) root)).
  destruct Hin as [->|Hin].
  - apply strip_keeps_free; [apply shallow_sel_matches, Hl|].
    intros e He. rewrite (element_local_any_root s context root e Hl).
    revert e He. apply remove_all_free;
      [apply shallow_sel_matches, Hl | apply tags_only_sel_matches].
  - apply IH; assumption.
Qed.

Lemma remove_images_free root : free (named (lit "img")) (remove_images root).
Proof.
  rewrite remove_images_is_remove_all. intros e He.
  rewrite <- find_matches_name.
  revert e He. apply remove_all_free;
    [apply shallow_find_matches | apply tags_only_find_matches].
Qed.

(** *** Identities *)

Lemma NoDup_app_inv {A : Type} (a b : list A) :
  NoDup (a ++ b) ->
  NoDup a /\ NoDup b /\ forall x, In x a -> ~ In x b.
Proof.
  induction a as [|x a IH]; simpl; intros H.
  - repeat split; [constructor | exact H | intros x []].
  - inversion H as [|x' l' Hx Hn]; subst.
    destruct (IH Hn) as [Ha [Hb Hd]].
    repeat split; [|exact Hb|].
    + constructor; [|exact Ha]. intros Hi. apply Hx, in_or_app. auto.
    + intros y [<-|Hy] Hyb; [apply Hx, in_or_app; auto | exact (Hd y Hy Hyb)].
Qed.

Lemma subseq_refl {A : Type} (l : list A) : subseq l l.
Proof. induction l; constructor; assumption. Qed.

Lemma subseq_skip_app {A : Type} (pre l l' : list A) :
  subseq l l' -> subseq l (pre ++ l').
Proof. intros H. induction pre; simpl; [exact H | constructor; assumption]. Qed.

Lemma subseq_app {A : Type} (a a' b b' : list A) :
  subseq a a' -> subseq b b' -> subseq (a ++ b) (a' ++ b').
Proof.
  intros Ha Hb. induction Ha; simpl; [exact Hb | |]; constructor; assumption.
Qed.

Lemma subseq_In {A : Type} (l l' : list A) (x : A) :
  subseq l l' -> In x l -> In x l'.
Proof.
  intros H. induction H; simpl; [tauto | auto |].
  intros [->|Hx]; auto.
Qed.

Lemma subseq_NoDup {A : Type} (l l' : list A) :
  subseq l l' -> NoDup l' -> NoDup l.
Proof.
  intros H. induction H; intros Hn; [constructor | |];
    inversion Hn as [|y m Hy Hm]; subst.
  - apply IHsubseq, Hm.
  - constructor; [|apply IHsubseq, Hm].
    intros Hx. apply Hy. exact (subseq_In l l' x H Hx).
Qed.

Lemma uids_of_app l l' : uids_of (l ++ l') = uids_of l ++ uids_of l'.
Proof. apply flat_map_app. Qed.

Lemma in_uids_of u l :
  In u (uids_of l) <-> exists n a cs, In (Tag u n a cs) l.
Proof.
  unfold uids_of. rewrite in_flat_map. split.
  - intros [d [Hd Hu]]. destruct d as [s|u' n a cs]; [destruct Hu|].
    destruct Hu as [<-|[]]. exists n, a, cs. exact Hd.
  - intros [n [a [cs H]]]. exists (Tag u n a cs). simpl. auto.
Qed.

(** With one identity per tag, two tags of a list with the same identity
    are the same node. *)
Lemma same_uid (l : list PageElement) :
  NoDup (uids_of l) ->
  forall u n a cs n' a' cs',
    In (Tag u n a cs) l -> In (Tag u n' a' cs') l ->
    Tag u n a cs = Tag u n' a' cs'.
Proof.
  induction l as [|x l IH]; intros Hn u n a cs n' a' cs' H1 H2;
    [destruct H1|].
  change (x :: l) with ([x] ++ l) in Hn. rewrite uids_of_app in Hn.
  destruct (NoDup_app_inv _ _ Hn) as [_ [Hl Hd]].
  destruct H1 as [->|H1], H2 as [E|H2].
  - exact E.
  - exfalso. apply (Hd u); [simpl; auto|].
    apply in_uids_of. eauto.
  - subst x. exfalso. apply (Hd u); [simpl; auto|].
    apply in_uids_of. eauto.
  - exact (IH Hl u n a cs n' a' cs' H1 H2).
Qed.

Lemma uids_tag u n a cs :
  uids (Tag u n a cs) = uids_of (forest_descendants cs).
Proof. unfold uids. rewrite descendants_tag. reflexivity. Qed.

Lemma uids_of_forest_cons c l :
  uids_of (forest_descendants (c :: l))
  = uids_of [c] ++ uids c ++ uids_of (forest_descendants l).
Proof.
  rewrite forest_descendants_cons.
  change (c :: descendants c ++ forest_descendants l)
    with ([c] ++ descendants c ++ forest_descendants l).
  rewrite !uids_of_app. reflexivity.
Qed.

Lemma uids_of_pruned_self p c : uids_of [prune p c] = uids_of [c].
Proof. destruct c; [reflexivity | rewrite prune_tag; reflexivity]. Qed.

(** Pruning leaves out identities and keeps the others in order. *)
Lemma prune_uids p root : subseq (uids (prune p root)) (uids root).
Proof.
  induction root as [s|u n a cs IH] using PageElement_nested_ind;
    [constructor|].
  rewrite prune_tag, !uids_tag.
  induction IH as [|c l Hc _ IHl]; [constructor|].
  rewrite uids_of_forest_cons. simpl prune_forest.
  destruct (p c).
  - simpl app at 1. rewrite app_assoc. apply subseq_skip_app, IHl.
  - change ([prune p c] ++ prune_forest p l)
      with (prune p c :: prune_forest p l).
    rewrite (uids_of_forest_cons (prune p c)), uids_of_pruned_self.
    apply subseq_app; [apply subseq_refl|].
    apply subseq_app; assumption.
Qed.

Lemma prune_NoDup p root : NoDup (uids root) -> NoDup (uids (prune p root)).
Proof. apply subseq_NoDup, prune_uids. Qed.

(** With one identity per tag, the loop over the matches of [q] takes out
    the elements that satisfy [q], and no other. *)
Lemma remove_all_exact q root :
  NoDup (uids root) -> tags_only q -> remove_all q root = prune q root.
Proof.
  intros Hn Ht. rewrite remove_all_prune. apply prune_ext_in. intros e He.
  destruct (q e) eqn:Qe.
  - apply uid_in_uids_of; [apply filter_In; auto | apply Ht, Qe].
  - destruct e as [s|u n a cs]; [reflexivity|]. simpl.
    destruct (existsb (Nat.eqb u) _) eqn:E; [|reflexivity].
    apply existsb_exists in E. destruct E as [u' [Hu' E]].
    apply Nat.eqb_eq in E. subst u'.
    apply in_uids_of in Hu'. destruct Hu' as [n' [a' [cs' Hm]]].
    apply filter_In in Hm. destruct Hm as [Hm Qm].
    rewrite (same_uid _ Hn u n a cs n' a' cs' He Hm) in Qe. congruence.
Qed.

Lemma shallow_matches_any rules root :
  Forall element_local rules -> shallow (matches_any rules root).
Proof.
  intros Hl uid name attrs c c'. unfold matches_any.
  induction Hl as [|s rules Hs _ IH]; cbn [existsb]; [reflexivity|].
  rewrite IH, (Hs root root uid name attrs c c'). reflexivity.
Qed.

Lemma matches_any_any_root rules root root' e :
  Forall element_local rules ->
  matches_any rules root e = matches_any rules root' e.
Proof.
  intros Hl. unfold matches_any.
  induction Hl as [|s rules Hs _ IH]; cbn [existsb]; [reflexivity|].
  rewrite IH, (element_local_any_root s root root' e Hs). reflexivity.
Qed.

(** With one identity per tag and rules that test an element by its own
    name and attributes, the loops take out the elements that match a rule,
    and no other. *)
Lemma strip_non_content_exact rules :
  Forall element_local rules ->
  forall root,
    NoDup (uids root) ->
    strip_non_content rules root = prune (matches_any rules root) root.
Proof.
  induction 1 as [|s rules Hs Hl IH]; intros root Hn.
  - symmetry. apply prune_free. intros e _. reflexivity.
  - change (strip_non_content (s :: rules) root)
      with (strip_non_content rules (remove_all (sel_matches root s) root)).
    rewrite remove_all_exact by (auto using tags_only_sel_matches).
    rewrite IH by (apply prune_NoDup, Hn).
    rewrite (prune_ext (matches_any rules (prune (sel_matches root s) root))
               (matches_any rules root))
      by (intros e; apply matches_any_any_root, Hl).
    rewrite prune_prune by (apply shallow_matches_any, Hl).
    reflexivity.
Qed.

(** *** Elements that left the tree with an ancestor *)

Lemma descendants_trans root :
  forall a e,
    In a (descendants root) -> In e (descendants a) ->
    In e (descendants root).
Proof.
  induction root as [s|u n attrs cs IH] using PageElement_nested_ind;
    intros a e Ha He; [destruct Ha|].
  rewrite descendants_tag in *.
  induction IH as [|c l Hc _ IHl]; [destruct Ha|].
  apply in_forest_descendants in Ha. apply in_forest_descendants.
  destruct Ha as [->|[Ha|Ha]]; eauto.
Qed.

Lemma uids_below root a v :
  In a (descendants root) -> In v (uids_of [a] ++ uids a) -> In v (uids root).
Proof.
  intros Ha Hv. unfold uids. apply in_uids_of.
  apply in_app_or in Hv. destruct Hv as [Hv|Hv]; apply in_uids_of in Hv;
    destruct Hv as [n [attrs [cs Hv]]]; exists n, attrs, cs.
  - destruct Hv as [<-|[]]. exact Ha.
  - exact (descendants_trans root a _ Ha Hv).
Qed.

Lemma uids_below_forest l a v :
  In a (forest_descendants l) -> In v (uids_of [a] ++ uids a) ->
  In v (uids_of (forest_descendants l)).
Proof.
  rewrite <- (descendants_tag 0 [] [] l), <- uids_is_uids_of.
  apply uids_below.
Qed.

Lemma prune_forest_uids p l :
  subseq (uids_of (forest_descendants (prune_forest p l)))
         (uids_of (forest_descendants l)).
Proof.
  rewrite <- (uids_tag 0 [] [] l), <- (uids_tag 0 [] [] (prune_forest p l)).
  rewrite <- prune_tag. apply prune_uids.
Qed.

(** With one identity per tag, once [outer] is detached neither its
    identity nor one from below it is left in the tree. *)
Lemma detach_takes_subtree uo root :
  NoDup (uids root) ->
  forall outer,
    In outer (descendants root) -> has_uid uo outer = true ->
    forall v, In v (uids_of [outer] ++ uids outer) ->
              ~ In v (uids (detach uo root)).
Proof.
  unfold detach.
  induction root as [s|u n attrs cs IH] using PageElement_nested_ind;
    intros Hn outer Ho; [destruct Ho|].
  rewrite prune_tag, uids_tag. rewrite uids_tag in Hn.
  rewrite descendants_tag in Ho. revert Hn outer Ho.
  induction IH as [|c l Hc _ IHl]; intros Hn outer Ho Hu v Hv;
    [destruct Ho|].
  rewrite uids_of_forest_cons in Hn.
  destruct (NoDup_app_inv _ _ Hn) as [_ [N23 D1]].
  destruct (NoDup_app_inv _ _ N23) as [Nc [Nl D2]].
  simpl prune_forest. destruct (has_uid uo c) eqn:Uc.
  - simpl app. intros Hr.
    apply (subseq_In _ _ _ (prune_forest_uids _ l)) in Hr.
    assert (outer = c) as ->.
    { destruct outer as [s|u1 n1 a1 c1]; [discriminate|].
      destruct c as [s|u2 n2 a2 c2]; [discriminate|].
      simpl in Hu, Uc. apply Nat.eqb_eq in Hu, Uc. subst u1 u2.
      apply (same_uid (forest_descendants (Tag uo n2 a2 c2 :: l)));
        [rewrite uids_of_forest_cons; exact Hn | exact Ho |].
      apply in_forest_descendants. auto. }
    apply in_app_or in Hv. destruct Hv as [Hv|Hv].
    + apply (D1 v Hv). apply in_or_app. auto.
    + exact (D2 v Hv Hr).
  - change ([prune (has_uid uo) c] ++ prune_forest (has_uid uo) l)
      with (prune (has_uid uo) c :: prune_forest (has_uid uo) l).
    rewrite uids_of_forest_cons, uids_of_pruned_self.
    apply in_forest_descendants in Ho.
    destruct Ho as [->|[Ho|Ho]]; [congruence| |].
    + pose proof (uids_below c outer v Ho Hv) as Vc.
      intros Hr. apply in_app_or in Hr. destruct Hr as [Hr|Hr].
      * apply (D1 v Hr). apply in_or_app. auto.
      * apply in_app_or in Hr. destruct Hr as [Hr|Hr].
        -- exact (Hc Nc outer Ho Hu v Hv Hr).
        -- apply (subseq_In _ _ _ (prune_forest_uids _ l)) in Hr.
           exact (D2 v Vc Hr).
    + pose proof (uids_below_forest l outer v Ho Hv) as Vl.
      intros Hr. apply in_app_or in Hr. destruct Hr as [Hr|Hr].
      * apply (D1 v Hr). apply in_or_app. auto.
      * apply in_app_or in Hr. destruct Hr as [Hr|Hr].
        -- apply (subseq_In _ _ _ (prune_uids _ c)) in Hr.
           exact (D2 v Hr Vl).
        -- exact (IHl Nl outer Ho Hu v Hv Hr).
Qed.

(** Decomposing an element that is not in the tree leaves the tree as it
    is. *)
Lemma decompose_absent element root :
  uid_in (uids root) element = false -> decompose element root = root.
Proof.
  destruct element as [s|u n a cs]; [reflexivity|]. simpl. intros H.
  apply prune_free. intros e He.
  destruct e as [s|u' n' a' cs']; [reflexivity|]. simpl.
  destruct (Nat.eqb_spec u' u) as [->|]; [|reflexivity].
  exfalso. apply not_true_iff_false in H. apply H.
  apply existsb_exists. exists u. split; [|apply Nat.eqb_refl].
  apply in_uids_of. eauto.
Qed.

(** A match that is below another match: once the outer one is decomposed,
    decomposing the inner one changes nothing. *)
Lemma decompose_nested outer inner root :
  NoDup (uids root) ->
  In outer (descendants root) -> is_tag outer = true ->
  In inner (descendants outer) ->
  decompose inner (decompose outer root) = decompose outer root.
Proof.
  intros Hn Ho Ht Hi. apply decompose_absent.
  destruct inner as [s|ui ni ai ci]; [reflexivity|].
  destruct outer as [s|uo no ao co]; [discriminate|]. simpl.
  destruct (existsb (Nat.eqb ui) _) eqn:E; [|reflexivity].
  exfalso. apply existsb_exists in E. destruct E as [v [Hv E]].
  apply Nat.eqb_eq in E. subst v.
  apply (detach_takes_subtree uo root Hn (Tag uo no ao co) Ho
           (Nat.eqb_refl uo) ui); [|exact Hv].
  apply in_or_app. right. apply in_uids_of. eauto.
Qed.

(** An identity left in a pruned tree is that of an element of the tree
    that did not satisfy the test. *)
Lemma uids_pruned p root v :
  In v (uids (prune p root)) ->
  exists n a cs, In (Tag v n a cs) (descendants root)
                 /\ p (Tag v n a cs) = false.
Proof.
  unfold uids. intros H. apply in_uids_of in H.
  destruct H as [n [a [cs H]]].
  destruct (descendants_prune p root _ H) as [e [He [Pe E]]].
  destruct e as [t|u' n' a' cs']; [discriminate|].
  rewrite prune_tag in E. inversion E; subst. eauto.
Qed.

(** The loop over the matches of [q] takes every match out of the tree. *)
Lemma remove_all_takes q root e :
  In e (descendants root) -> q e = true -> is_tag e = true ->
  uid_in (uids (remove_all q root)) e = false.
Proof.
  intros He Qe Te. destruct e as [t|u n a cs]; [discriminate|]. simpl.
  destruct (existsb (Nat.eqb u) _) eqn:E; [|reflexivity].
  exfalso. apply existsb_exists in E. destruct E as [v [Hv E]].
  apply Nat.eqb_eq in E. subst v. rewrite remove_all_prune in Hv.
  destruct (uids_pruned _ root u Hv) as [n' [a' [cs' [_ Hu]]]].
  assert (uid_in (uids_of (filter q (descendants root))) (Tag u n a cs)
          = true) as Hin
    by (apply uid_in_uids_of; [apply filter_In; auto | reflexivity]).
  simpl in Hu, Hin. congruence.
Qed.

(** The loops add no identity to the tree. *)
Lemma strip_uids rules :
  forall root v, In v (uids (strip_non_content rules root)) -> In v (uids root).
Proof.
  induction rules as [|s rules IH]; intros root v H; [exact H|].
  change (strip_non_content (s :: rules) root)
    with (strip_non_content rules (remove_all (sel_matches root s) root)) in H.
  apply IH in H. rewrite remove_all_prune in H.
  exact (subseq_In _ _ _ (prune_uids _ root) H).
Qed.

Lemma strip_non_content_app rules rules' root :
  strip_non_content (rules ++ rules') root
  = strip_non_content rules' (strip_non_content rules root).
Proof. unfold strip_non_content. apply fold_left_app. Qed.

(** An element that matches a rule when the rule's turn comes is out of the
    tree when the loops are over. *)
Lemma strip_takes_matches before s after root e :
  In e (select s (strip_non_content before root)) ->
  uid_in (uids (strip_non_content (before ++ s :: after) root)) e = false.
Proof.
  intros He. apply filter_In in He. destruct He as [He Me].
  rewrite strip_non_content_app.
  set (r := strip_non_content before root) in *.
  change (strip_non_content (s :: after) r)
    with (strip_non_content after (remove_all (sel_matches r s) r)).
  pose proof (remove_all_takes (sel_matches r s) r e He Me
                (tags_only_sel_matches r s e Me)) as Hout.
  destruct e as [t|u n a cs]; [reflexivity|]. simpl in *.
  destruct (existsb (Nat.eqb u) (uids (strip_non_content after _))) eqn:E;
    [|reflexivity].
  apply existsb_exists in E. destruct E as [v [Hv E]].
  apply strip_uids in Hv.
  assert (existsb (Nat.eqb u) (uids (remove_all (sel_matches r s) r)) = true)
    by (apply existsb_exists; eauto).
  congruence.
Qed.

(** When every text parses, the loops over the texts are the loops over the
    selectors. *)
Lemma strip_texts_returned compile texts :
  forall rules root,
    map compile texts = map Returned rules ->
    strip_non_content_texts compile texts root
    = Returned (strip_non_content rules root).
Proof.
  induction texts as [|t texts IH]; intros [|s rules] root H;
    try discriminate; [reflexivity|].
  simpl in H. inversion H as [[Ht Hm]]. cbn [strip_non_content_texts].
  rewrite Ht. rewrite (IH rules _ Hm). reflexivity.
Qed.

(** A text that does not parse makes the loops raise. *)
Lemma strip_texts_raised compile texts :
  forall text root,
    In text texts -> compile text = Raised ->
    strip_non_content_texts compile texts root = Raised.
Proof.
  induction texts as [|t texts IH]; intros text root Hin Hr; [destruct Hin|].
  cbn [strip_non_content_texts].
  destruct (compile t) as [sel|] eqn:Ct; [|reflexivity].
  destruct Hin as [->|Hin]; [congruence|].
  exact (IH text _ Hin Hr).
Qed.

(** C9, as the code has it. The pruning loops. (1) When every selector text
    parses, the loops return the tree that the loops over the parsed
    selectors leave; a text that does not parse makes them raise. (2) An
    element below the root that matches a rule when the rule's turn comes
    is out of the tree at the end, whatever the rules before and after it.
    (3) For a rule that tests an element by its own name and attributes
    (the forms of the default list), no element below the root matches the
    rule when the loops are over. (4) Decomposing an element that is no
    longer in the tree leaves the tree as it is, and (5) with one identity
    per tag, a match that lies below another match of the same list is such
    an element once the outer one has been decomposed. The root itself is
    not among the matches of [select]. *)
Theorem strip_non_content_spec :
  (forall compile texts rules root,
      map compile texts = map Returned rules ->
      strip_non_content_texts compile texts root
      = Returned (strip_non_content rules root))
  /\ (forall compile texts text root,
         In text texts -> compile text = Raised ->
         strip_non_content_texts compile texts root = Raised)
  /\ (forall before s after root e,
         In e (select s (strip_non_content before root)) ->
         uid_in (uids (strip_non_content (before ++ s :: after) root)) e
         = false)
  /\ (forall rules root context e s,
         In e (descendants (strip_non_content rules root)) ->
         In s rules -> element_local s -> sel_matches context s e = false)
  /\ (forall element root,
         uid_in (uids root) element = false ->
         decompose element root = root)
  /\ (forall s outer inner root,
         NoDup (uids root) ->
         In outer (select s root) -> In inner (select s root) ->
         In inner (descendants outer) ->
         decompose inner (decompose outer root) = decompose outer root).
Proof.
  split; [exact strip_texts_returned|].
  split; [exact strip_texts_raised|].
  split; [exact strip_takes_matches|].
  split; [|split; [exact decompose_absent|]].
  - intros rules root context e s He Hs Hl.
    exact (strip_free rules root context s Hs Hl e He).
  - intros s outer inner root Hn Ho _ Hi.
    apply filter_In in Ho. destruct Ho as [Ho Mo].
    apply decompose_nested; auto. exact (tags_only_sel_matches root s outer Mo).
Qed.

(** C9, as the specification words it, fails in three ways. The matches of
    a rule are searched below the root: a content root that matches a rule
    itself (here the [div] of classes [content sidebar], and the rule
    [.sidebar]) stays. A rule is applied once, to the tree as it is at the
    rule's turn: with [div:empty] before [span] in the extra rules, the
    [div] that the second rule empties matches the first rule at the end.
    And a selector text that does not parse makes the loops raise. *)
Lemma strip_non_content_leaves_matches :
  (content_root doc_sidebar = root_sidebar
   /\ strip_non_content DEFAULT_STRIP_SELECTORS root_sidebar = root_sidebar
   /\ In (ClassSel (lit "sidebar")) DEFAULT_STRIP_SELECTORS
   /\ sel_matches root_sidebar (ClassSel (lit "sidebar")) root_sidebar = true)
  /\ (let rules := STRIP_SELECTORS [EMPTY_DIV; TypeSel (lit "span")] in
      let left := strip_non_content rules root_nested_span in
      left = el 1 "main" [] [el 2 "div" [] []; el 4 "p" [] [txt "Text"]]
      /\ In EMPTY_DIV rules
      /\ In (el 2 "div" [] []) (descendants left)
      /\ sel_matches left EMPTY_DIV (el 2 "div" [] []) = true)
  /\ strip_non_content_texts compile_names [lit "nav"; lit "div["]
       root_nested_nav = Raised.
Proof.
  split; [|split].
  - split; [vm_compute; reflexivity|].
    split; [vm_compute; reflexivity|].
    split; [|vm_compute; reflexivity].
    unfold DEFAULT_STRIP_SELECTORS. simpl. tauto.
  - cbv zeta.
    assert (strip_non_content
              (STRIP_SELECTORS [EMPTY_DIV; TypeSel (lit "span")])
              root_nested_span
            = el 1 "main" [] [el 2 "div" [] []; el 4 "p" [] [txt "Text"]])
      as -> by (vm_compute; reflexivity).
    split; [reflexivity|].
    split; [unfold STRIP_SELECTORS; apply in_or_app; right; left; reflexivity|].
    split; [left; reflexivity | vm_compute; reflexivity].
  - vm_compute. reflexivity.
Qed.

Lemma strip_non_content_witness :
  forallb
    (fun e => negb (matches_any DEFAULT_STRIP_SELECTORS root_nested_nav e))
    (descendants (strip_non_content DEFAULT_STRIP_SELECTORS root_nested_nav))
  = true.
Proof.
  apply forallb_forall. intros e He. apply negb_true_iff.
  unfold matches_any.
  destruct (existsb _ DEFAULT_STRIP_SELECTORS) eqn:E; [|reflexivity].
  apply existsb_exists in E. destruct E as [s [Hs M]].
  rewrite (proj1 (proj2 (proj2 (proj2 strip_non_content_spec)))
             DEFAULT_STRIP_SELECTORS root_nested_nav root_nested_nav e s He Hs)
    in M; [discriminate|].
  exact (proj1 (Forall_forall _ _) default_rules_local s Hs).
Defined.

(** ** What reaches the converter *)

Lemma remove_all_named n q root :
  named n (remove_all q root) = named n root.
Proof. rewrite remove_all_prune. apply shallow_prune, shallow_named. Qed.

Lemma strip_named n rules :
  forall root, named n (strip_non_content rules root) = named n root.
Proof.
  induction rules as [|s rules IH]; intros root; [reflexivity|].
  change (strip_non_content (s :: rules) root)
    with (strip_non_content rules (remove_all (sel_matches root s) root)).
  rewrite IH. apply remove_all_named.
Qed.

Lemma pruned_root_named n extra soup :
  named n (pruned_root extra soup) = named n (content_root soup).
Proof.
  unfold pruned_root. rewrite remove_images_is_remove_all, remove_all_named.
  apply strip_named.
Qed.

Lemma find_named n attrs soup e :
  find n attrs soup = Some e -> named n e = true.
Proof.
  unfold find. intros H. apply find_some in H. destruct H as [_ H].
  unfold find_matches in H. apply andb_true_iff in H. tauto.
Qed.

Lemma content_root_name soup :
  named (lit "[document]") soup = true ->
  existsb (fun n => named n (content_root soup)) ROOT_NAMES = true.
Proof.
  intros Hd. unfold content_root, ROOT_NAMES.
  destruct (find (lit "main") [] soup) eqn:F1;
    [cbn [existsb]; rewrite (find_named _ _ _ _ F1); reflexivity|].
  destruct (find (lit "article") [] soup) eqn:F2;
    [cbn [existsb]; rewrite (find_named _ _ _ _ F2), !orb_true_r; reflexivity|].
  destruct (find (lit "div") [(lit "id", lit "content")] soup) eqn:F3;
    [cbn [existsb]; rewrite (find_named _ _ _ _ F3), !orb_true_r; reflexivity|].
  destruct (find (lit "div") [(lit "class", lit "content")] soup) eqn:F4;
    [cbn [existsb]; rewrite (find_named _ _ _ _ F4), !orb_true_r; reflexivity|].
  destruct (find (lit "body") [] soup) eqn:F5;
    [cbn [existsb]; rewrite (find_named _ _ _ _ F5), !orb_true_r; reflexivity|].
  cbn [existsb]. rewrite Hd, !orb_true_r. reflexivity.
Qed.

Lemma named_other m n e :
  named m e = true -> str_eqb m n = false -> named n e = false.
Proof.
  destruct e as [s|u name a cs]; [reflexivity|]. simpl. intros H.
  apply str_eqb_eq in H. subst name. auto.
Qed.

Lemma root_name_not_stripped soup n :
  named (lit "[document]") soup = true ->
  In n (lit "img" :: CHROME_NAMES) ->
  named n (content_root soup) = false.
Proof.
  intros Hd Hn. pose proof (content_root_name soup Hd) as H.
  apply existsb_exists in H. destruct H as [m [Hm H]].
  apply (named_other m n _ H).
  simpl in Hm, Hn.
  repeat (destruct Hm as [<-|Hm]; [
    repeat (destruct Hn as [<-|Hn]; [reflexivity|]); destruct Hn |]).
  destruct Hm.
Qed.

Lemma chrome_is_default_rule n :
  In n CHROME_NAMES -> In (TypeSel n) DEFAULT_STRIP_SELECTORS.
Proof.
  intros Hn. simpl in Hn.
  repeat (destruct Hn as [<-|Hn];
          [unfold DEFAULT_STRIP_SELECTORS;
           repeat (first [left; reflexivity | right])|]).
  destruct Hn.
Qed.

Lemma type_rule_named root n e : sel_matches root (TypeSel n) e = named n e.
Proof. destruct e; reflexivity. Qed.

Lemma pruned_root_free extra soup n :
  In n (lit "img" :: CHROME_NAMES) ->
  free (named n) (pruned_root extra soup).
Proof.
  intros [<-|Hn]; unfold pruned_root.
  - apply remove_images_free.
  - rewrite remove_images_is_remove_all.
    apply remove_all_keeps_free; [apply shallow_named|].
    intros e He. rewrite <- (type_rule_named (content_root soup)).
    revert e He. apply strip_free; [|apply type_sel_local].
    unfold STRIP_SELECTORS. apply in_or_app. left.
    apply chrome_is_default_rule, Hn.
Qed.

Lemma startswith_app needle s rest :
  startswith needle s = true -> startswith needle (s ++ rest) = true.
Proof.
  revert s. induction needle as [|c needle IH]; intros s H; [reflexivity|].
  destruct s as [|d s]; [discriminate|]. simpl in *.
  apply andb_true_iff in H. destruct H as [-> H]. simpl. apply IH, H.
Qed.

Lemma contains_app needle s rest :
  contains needle s = true -> contains needle (s ++ rest) = true.
Proof.
  induction s as [|d s IH]; simpl; intros H.
  - rewrite orb_false_r in H.
    destruct needle; [destruct rest; reflexivity | discriminate].
  - apply orb_true_iff in H. destruct H as [H|H].
    + change (d :: s ++ rest) with ((d :: s) ++ rest).
      rewrite (startswith_app _ _ _ H). reflexivity.
    + rewrite (IH H). apply orb_true_r.
Qed.

(** C4, as the code has it. For a parsed document and any extra rules, the
    tree handed to the converter has no [nav], [header], [footer],
    [script], [style], [form] or [aside] element and no [img] element, at
    its root or below; the [img] elements are gone whatever the rules are;
    and the Markdown body is computed from that tree alone. Nothing is said
    of the front matter, which is written from the metadata. *)
Theorem pruned_root_spec (extra : list selector) (soup : PageElement) :
  named (lit "[document]") soup = true ->
  let root := pruned_root extra soup in
  (forall e n,
      In e (root :: descendants root) ->
      In n (lit "img" :: CHROME_NAMES) -> named n e = false)
  /\ (forall rules r e,
         In e (descendants (remove_images (strip_non_content rules r))) ->
         named (lit "img") e = false)
  /\ (forall to_html md,
         convert_soup to_html md extra soup
         = (build_front_matter (extract_metadata soup)
              (normalize_whitespace (md (to_html root))),
            extract_metadata soup)).
Proof.
  intros Hd root. split; [|split].
  - intros e n [<-|He] Hn.
    + unfold root. rewrite pruned_root_named.
      apply root_name_not_stripped; assumption.
    + exact (pruned_root_free extra soup n Hn e He).
  - intros rules r e He. exact (remove_images_free _ e He).
  - reflexivity.
Qed.

Lemma pruned_root_witness :
  forallb (fun e => negb (named (lit "img") e))
    (pruned_root [] doc_full_head
     :: descendants (pruned_root [] doc_full_head)) = true.
Proof.
  apply forallb_forall. intros e He.
  rewrite (proj1 (pruned_root_spec [] doc_full_head eq_refl) e (lit "img") He
             (or_introl eq_refl)).
  reflexivity.
Defined.

(** C4, as the specification words it, fails in its last part: the page
    [doc_full_head] names its image [/hero.jpg] in [og:image], the image
    element is removed from the root, and the source path is in the output
    all the same, in the [image] line of the front matter, whatever the
    converter writes. *)
Lemma image_source_in_front_matter :
  In hero_image (descendants (content_root doc_full_head))
  /\ get (lit "src") hero_image = Some (lit "/hero.jpg")
  /\ forall to_html md extra,
       contains (lit "/hero.jpg")
         (fst (convert_soup to_html md extra doc_full_head)) = true.
Proof.
  split; [vm_compute; auto | split; [reflexivity|]].
  intros to_html md extra. unfold convert_soup. cbn [fst].
  set (body := normalize_whitespace _).
  replace (extract_metadata doc_full_head)
    with [(lit "title", lit "Home"); (lit "description", lit "About");
          (lit "author", lit "Ann"); (lit "keywords", lit "a, b");
          (lit "image", lit "/hero.jpg")]
    by (vm_compute; reflexivity).
  unfold build_front_matter. apply contains_app. vm_compute. reflexivity.
Qed.

(** ** Token count *)

Lemma count_tokens_cases tiktoken TOKEN_MODEL _encoder text :
  fst (count_tokens tiktoken TOKEN_MODEL _encoder text)
  = match tokenize tiktoken TOKEN_MODEL _encoder text with
    | Returned tokens => Returned (Z.of_nat (List.length tokens))
    | Raised => Returned (Z.of_nat (List.length text) / 4)%Z
    end.
Proof.
  unfold count_tokens, tokenize.
  destruct (get_encoder tiktoken TOKEN_MODEL _encoder) as [[enc|] cache];
    cbn [fst]; [|reflexivity].
  destruct (encode tiktoken enc text); reflexivity.
Qed.

(** C8. Whatever the tokenizer and the cached encoder: when the encoder
    cannot be had or its [encode] raises, the count is the length of the
    text divided by 4, rounded down; a call always returns a count and
    never raises; and the count of the empty text is 0, on the fallback
    path and on the tokenizer path, where the encoder gives the empty text
    no token. *)
Theorem count_tokens_fallback (tiktoken : Tokenizer) (TOKEN_MODEL : str)
    (_encoder : option (Encoding tiktoken)) :
  (forall text,
      tokenize tiktoken TOKEN_MODEL _encoder text = Raised ->
      fst (count_tokens tiktoken TOKEN_MODEL _encoder text)
      = Returned (Z.of_nat (List.length text) / 4)%Z)
  /\ (forall text tokens,
         tokenize tiktoken TOKEN_MODEL _encoder text = Returned tokens ->
         fst (count_tokens tiktoken TOKEN_MODEL _encoder text)
         = Returned (Z.of_nat (List.length tokens)))
  /\ (forall text,
         exists n, fst (count_tokens tiktoken TOKEN_MODEL _encoder text)
                   = Returned n)
  /\ (tokenize tiktoken TOKEN_MODEL _encoder [] = Raised
      \/ tokenize tiktoken TOKEN_MODEL _encoder [] = Returned [] ->
      fst (count_tokens tiktoken TOKEN_MODEL _encoder []) = Returned 0%Z).
Proof.
  repeat split.
  - intros text H. rewrite count_tokens_cases, H. reflexivity.
  - intros text tokens H. rewrite count_tokens_cases, H. reflexivity.
  - intros text. rewrite count_tokens_cases.
    destruct (tokenize tiktoken TOKEN_MODEL _encoder text); eauto.
  - intros [H|H]; rewrite count_tokens_cases, H; reflexivity.
Qed.

Lemma count_tokens_fallback_witness :
  fst (count_tokens unavailable (lit "cl100k_base") None (lit "Hello, world"))
  = Returned 3%Z.
Proof.
  exact (proj1 (count_tokens_fallback unavailable (lit "cl100k_base") None)
           (lit "Hello, world") eq_refl).
Defined.

Lemma fallback_monotone (shortText extra : str) :
  (Z.of_nat (List.length shortText) / 4
   <= Z.of_nat (List.length (shortText ++ extra)) / 4)%Z
  /\ (4 <= List.length extra ->
      (Z.of_nat (List.length shortText) / 4
       < Z.of_nat (List.length (shortText ++ extra)) / 4)%Z).
Proof.
  rewrite length_app, Nat2Z.inj_add. split.
  - apply Z.div_le_mono; lia.
  - intros H.
    apply Z.lt_le_trans
      with ((Z.of_nat (List.length shortText) + 1 * 4) / 4)%Z.
    + rewrite Z.div_add by lia. lia.
    + apply Z.div_le_mono; lia.
Qed.

(** C7, as the code has it. Both calls return a count, [n] for the text
    and [m] for the text with more appended. When both take the fallback
    path, [m] is not below [n], and it is above [n] when at least four
    characters are appended. When both take the tokenizer path, the counts
    are the lengths of the two token sequences, so [m] is above [n] exactly
    when the encoder returns more tokens for the longer text. When the two
    calls take different paths, one count is the length of a token sequence
    and the other the length of the text divided by 4, rounded down. *)
Theorem count_tokens_under_appending (tiktoken : Tokenizer)
    (TOKEN_MODEL : str) (cache cache' : option (Encoding tiktoken))
    (shortText extra : str) :
  exists n m,
    fst (count_tokens tiktoken TOKEN_MODEL cache shortText) = Returned n
    /\ fst (count_tokens tiktoken TOKEN_MODEL cache' (shortText ++ extra))
       = Returned m
    /\ (tokenize tiktoken TOKEN_MODEL cache shortText = Raised ->
        tokenize tiktoken TOKEN_MODEL cache' (shortText ++ extra) = Raised ->
        (n <= m)%Z /\ (4 <= List.length extra -> (n < m)%Z))
    /\ (forall tokens tokens',
           tokenize tiktoken TOKEN_MODEL cache shortText = Returned tokens ->
           tokenize tiktoken TOKEN_MODEL cache' (shortText ++ extra)
           = Returned tokens' ->
           n = Z.of_nat (List.length tokens)
           /\ m = Z.of_nat (List.length tokens')
           /\ ((n < m)%Z <-> List.length tokens < List.length tokens'))
    /\ (forall tokens,
           tokenize tiktoken TOKEN_MODEL cache shortText = Returned tokens ->
           tokenize tiktoken TOKEN_MODEL cache' (shortText ++ extra) = Raised ->
           n = Z.of_nat (List.length tokens)
           /\ m = (Z.of_nat (List.length (shortText ++ extra)) / 4)%Z)
    /\ (forall tokens',
           tokenize tiktoken TOKEN_MODEL cache shortText = Raised ->
           tokenize tiktoken TOKEN_MODEL cache' (shortText ++ extra)
           = Returned tokens' ->
           n = (Z.of_nat (List.length shortText) / 4)%Z
           /\ m = Z.of_nat (List.length tokens')).
Proof.
  rewrite !count_tokens_cases.
  destruct (tokenize tiktoken TOKEN_MODEL cache shortText) as [ts|];
    destruct (tokenize tiktoken TOKEN_MODEL cache' (shortText ++ extra))
      as [tl|];
    eexists; eexists;
    (split; [reflexivity|]); (split; [reflexivity|]).
  - split; [discriminate|]. split; [|split; discriminate].
    intros tokens tokens' Hs Hl. inversion Hs. inversion Hl. subst.
    split; [reflexivity | split; [reflexivity | lia]].
  - split; [discriminate|]. split; [discriminate|].
    split; [|discriminate].
    intros tokens Hs _. inversion Hs. split; reflexivity.
  - split; [discriminate|]. split; [discriminate|].
    split; [discriminate|].
    intros tokens' _ Hl. inversion Hl. split; reflexivity.
  - split; [intros _ _; apply fallback_monotone|].
    split; [discriminate|]. split; discriminate.
Qed.

Lemma count_tokens_under_appending_witness :
  exists n m,
    fst (count_tokens unavailable (lit "cl100k_base") None (lit "Hi"))
    = Returned n
    /\ fst (count_tokens unavailable (lit "cl100k_base") None
              (lit "Hi" ++ lit ", there"))
       = Returned m
    /\ (n < m)%Z.
Proof.
  destruct (count_tokens_under_appending unavailable (lit "cl100k_base")
              None None (lit "Hi") (lit ", there"))
    as [n [m [Hn [Hm [Hf _]]]]].
  exists n, m. split; [exact Hn | split; [exact Hm|]].
  apply (Hf eq_refl eq_refl). simpl. lia.
Defined.

(** C7, as the specification words it, fails on each path. On the fallback
    path one character appended to [Hi] leaves the count at 0. On the
    tokenizer path a character that the encoder merges into the last token
    adds nothing: [a] and [ab] are one token each for [pairing]. And when
    the longer text is one the encoder raises on, its count is the fallback
    one, which can be below the token count of the shorter text. *)
Lemma count_tokens_not_strict :
  (fst (count_tokens unavailable (lit "cl100k_base") None (lit "Hi"))
   = Returned 0%Z
   /\ fst (count_tokens unavailable (lit "cl100k_base") None
             (lit "Hi" ++ lit "!"))
      = Returned 0%Z)
  /\ (fst (count_tokens pairing (lit "cl100k_base") None (lit "a"))
      = Returned 1%Z
      /\ fst (count_tokens pairing (lit "cl100k_base") None
                (lit "a" ++ lit "b"))
         = Returned 1%Z)
  /\ (fst (count_tokens pairing (lit "cl100k_base") None (lit "abcdefgh"))
      = Returned 4%Z
      /\ fst (count_tokens pairing (lit "cl100k_base") None
                (lit "abcdefgh" ++ lit "<"))
         = Returned 2%Z).
Proof. repeat split; vm_compute; reflexivity. Qed.

(** ** The URL of the page *)

(** C10. The URL handed to [html_to_markdown] has no part in the result. *)
Theorem page_url_ignored (BeautifulSoup : str -> PageElement)
    (to_html : PageElement -> str) (md : str -> str)
    (extra : list selector) (html u1 u2 : str) :
  html_to_markdown BeautifulSoup to_html md extra html u1
  = html_to_markdown BeautifulSoup to_html md extra html u2.
Proof. reflexivity. Qed.

(** ** The normalizer on examples *)

(** Five blank lines between two lines of text come out as two; the blank
    line with spaces comes out empty; the ends are trimmed. *)
Lemma normalize_whitespace_example :
  normalize_whitespace
    (LF :: lit "a" ++ [LF; 32%N; 32%N; LF; LF; LF; LF; LF]
        ++ lit "  b" ++ [LF; LF])
  = lit "a" ++ [LF; LF; LF] ++ lit "  b".
Proof. vm_compute. reflexivity. Qed.

Lemma normalize_whitespace_witness :
  clean_blank_lines
    ([lit "a"] ++ [lit " "; []; lit "  "] ++ [lit "  b"])
  = [lit "a"; []; []; lit "  b"].
Proof.
  exact (proj1 normalize_whitespace_spec [lit "a"] [lit " "; []; lit "  "]
           [lit "  b"] eq_refl eq_refl eq_refl).
Defined.

(** ** The metadata rules on an example *)



(** * Further properties *)

(** ** The blank-line clean-up, continued *)

Lemma cleaned_from_cons n l lines :
  cleaned_from n (l :: lines)
  = emitted n l ++ cleaned_from (counted n l) lines.
Proof.
  unfold cleaned_from. cbn [fold_left]. rewrite clean_step_eq.
  rewrite clean_fold_from. reflexivity.
Qed.

Lemma clean_blank_lines_from lines :
  clean_blank_lines lines = cleaned_from 0 lines.
Proof. reflexivity. Qed.

Lemma cleaned_from_text n lines :
  filter is_text (cleaned_from n lines) = filter is_text lines.
Proof.
  revert n. induction lines as [|l lines IH]; intros n; [reflexivity|].
  rewrite cleaned_from_cons, filter_app, IH. unfold emitted, is_text.
  simpl. destruct (blank l) eqn:B; simpl.
  - destruct (n + 1 <=? 2)%Z; reflexivity.
  - rewrite B. reflexivity.
Qed.

Lemma cleaned_from_blank_is_empty n lines :
  forall l, In l (cleaned_from n lines) -> blank l = true -> l = [].
Proof.
  revert n. induction lines as [|x lines IH]; intros n l Hl Bl;
    [destruct Hl|].
  rewrite cleaned_from_cons in Hl. apply in_app_or in Hl.
  destruct Hl as [Hl|Hl]; [|exact (IH _ l Hl Bl)].
  unfold emitted in Hl. destruct (blank x) eqn:B.
  - destruct (n + 1 <=? 2)%Z; simpl in Hl; intuition.
  - destruct Hl as [<-|[]]. congruence.
Qed.

(** X1. The text lines of the input are the text lines of the output, the same
    and in the same order; every other line of the output is the empty
    line. *)
Theorem clean_blank_lines_keeps_text (lines : list str) :
  filter is_text (clean_blank_lines lines) = filter is_text lines
  /\ forall l, In l (clean_blank_lines lines) -> is_text l = false -> l = [].
Proof.
  split; [apply cleaned_from_text|].
  intros l Hl Tl. apply (cleaned_from_blank_is_empty 0 lines l Hl).
  unfold is_text in Tl. destruct (blank l); [reflexivity | discriminate].
Qed.

Lemma cleaned_from_runs_ok lines :
  forall n, (0 <= n)%Z ->
    blank_runs_ok (Z.to_nat (Z.min n 2)) (cleaned_from n lines) = true.
Proof.
  induction lines as [|l lines IH]; intros n Hn; [reflexivity|].
  rewrite cleaned_from_cons. unfold emitted, counted.
  destruct (blank l) eqn:B.
  - destruct (Z.leb_spec (n + 1) 2).
    + cbn [app blank_runs_ok]. change (blank []) with true. cbv iota.
      apply andb_true_iff. split; [apply Nat.ltb_lt; lia|].
      replace (Datatypes.S (Z.to_nat (Z.min n 2)))
        with (Z.to_nat (Z.min (n + 1) 2)) by lia.
      apply IH. lia.
    + cbn [app].
      replace (Z.to_nat (Z.min n 2))
        with (Z.to_nat (Z.min (n + 1) 2)) by lia.
      apply IH. lia.
  - cbn [app blank_runs_ok]. rewrite B. apply (IH 0%Z). lia.
Qed.

Lemma blank_runs_ok_no_triple k before a b c after :
  blank a = true -> blank b = true -> blank c = true ->
  blank_runs_ok k (before ++ a :: b :: c :: after) = false.
Proof.
  intros Ba Bb Bc. revert k.
  induction before as [|x before IH]; intros k.
  - cbn [app blank_runs_ok]. rewrite Ba, Bb, Bc.
    destruct k as [|[|k]]; reflexivity.
  - cbn [app blank_runs_ok]. destruct (blank x); [|apply IH].
    rewrite IH. apply andb_false_r.
Qed.

(** The output of the clean-up never has three blank lines in a row. *)
Theorem clean_blank_lines_no_triple (lines before after : list str)
    (a b c : str) :
  clean_blank_lines lines = before ++ a :: b :: c :: after ->
  blank a = true -> blank b = true -> blank c = true -> False.
Proof.
  intros E Ba Bb Bc.
  pose proof (cleaned_from_runs_ok lines 0%Z (Z.le_refl 0)) as H.
  rewrite <- clean_blank_lines_from, E in H.
  rewrite (blank_runs_ok_no_triple _ before a b c after Ba Bb Bc) in H.
  discriminate.
Qed.

Lemma cleaned_again k lines :
  blank_runs_ok k lines = true ->
  (forall l, In l lines -> blank l = true -> l = []) ->
  cleaned_from (Z.of_nat k) lines = lines.
Proof.
  revert k. induction lines as [|l lines IH]; intros k Hk He; [reflexivity|].
  rewrite cleaned_from_cons. unfold emitted, counted.
  cbn [blank_runs_ok] in Hk. destruct (blank l) eqn:B.
  - apply andb_true_iff in Hk. destruct Hk as [Hlt Hk].
    apply Nat.ltb_lt in Hlt.
    rewrite (He l (or_introl eq_refl) B).
    destruct (Z.leb_spec (Z.of_nat k + 1) 2); [|lia].
    cbn [app]. f_equal.
    replace (Z.of_nat k + 1)%Z with (Z.of_nat (Datatypes.S k)) by lia.
    apply IH; [exact Hk | intros x Hx; apply He; right; exact Hx].
  - cbn [app]. f_equal.
    apply (IH 0%nat); [exact Hk | intros x Hx; apply He; right; exact Hx].
Qed.

(** Cleaning lines that were cleaned changes nothing. *)
Theorem clean_blank_lines_idempotent (lines : list str) :
  clean_blank_lines (clean_blank_lines lines) = clean_blank_lines lines.
Proof.
  rewrite (clean_blank_lines_from (clean_blank_lines lines)).
  apply (cleaned_again 0).
  - exact (cleaned_from_runs_ok lines 0%Z (Z.le_refl 0)).
  - apply cleaned_from_blank_is_empty.
Qed.

(** ** Lines and line feeds *)

Lemma splitlines_from_unbroken :
  forall n s, List.length s <= n ->
    forall line, unbroken line = true ->
      forall l, In l (splitlines_from line s) -> unbroken l = true.
Proof.
  induction n as [|n IH]; intros s Hlen line Hline l Hl.
  - destruct s; [|simpl in Hlen; lia]. simpl in Hl.
    destruct line; [destruct Hl | destruct Hl as [<-|[]]; exact Hline].
  - destruct s as [|c rest].
    + simpl in Hl.
      destruct line; [destruct Hl | destruct Hl as [<-|[]]; exact Hline].
    + simpl in Hlen. cbn [splitlines_from] in Hl.
      destruct (islinebreak c) eqn:Bc.
      * destruct Hl as [<-|Hl]; [exact Hline|].
        destruct rest as [|c' rest']; [destruct Hl|].
        simpl in Hlen.
        destruct ((c =? CR) && (c' =? LF))%N.
        -- apply (IH rest' ltac:(lia) [] eq_refl l Hl).
        -- apply (IH (c' :: rest') ltac:(simpl; lia) [] eq_refl l Hl).
      * apply (IH rest ltac:(lia) (line ++ [c])); [|exact Hl].
        unfold unbroken. rewrite forallb_app. simpl.
        rewrite Bc. simpl. rewrite andb_true_r. exact Hline.
Qed.

(** The lines of [splitlines] hold no line boundary. *)
Lemma splitlines_unbroken s :
  forall l, In l (splitlines s) -> unbroken l = true.
Proof.
  exact (splitlines_from_unbroken (List.length s) s (Nat.le_refl _)
           [] eq_refl).
Qed.

Lemma cleaned_from_lines n lines :
  forall l, In l (cleaned_from n lines) -> l = [] \/ In l lines.
Proof.
  revert n. induction lines as [|x lines IH]; intros n l Hl; [destruct Hl|].
  rewrite cleaned_from_cons in Hl. apply in_app_or in Hl.
  destruct Hl as [Hl|Hl].
  - unfold emitted in Hl. destruct (blank x).
    + destruct (n + 1 <=? 2)%Z; simpl in Hl; intuition.
    + destruct Hl as [<-|[]]. right. left. reflexivity.
  - destruct (IH _ l Hl); [left | right; right]; assumption.
Qed.

Lemma lf_runs_ok_sound s :
  forall k, k <= 3 -> lf_runs_ok k s = true ->
    (forall m, 4 <= m + k -> startswith (repeat LF m) s = false)
    /\ contains (repeat LF 4) s = false.
Proof.
  induction s as [|c s IH]; intros k Hk H.
  - split; [|reflexivity]. intros m Hm.
    destruct m; [lia | reflexivity].
  - cbn [lf_runs_ok] in H. destruct (N.eqb_spec c LF) as [->|Hc].
    + apply andb_true_iff in H. destruct H as [Hlt H].
      apply Nat.ltb_lt in Hlt.
      destruct (IH (Datatypes.S k) ltac:(lia) H) as [Hs Hc].
      split.
      * intros m Hm. destruct m as [|m]; [lia|]. cbn [repeat startswith].
        rewrite N.eqb_refl. apply Hs. lia.
      * cbn [contains]. rewrite Hc, orb_false_r.
        change (repeat LF 4) with (LF :: repeat LF 3).
        cbn [startswith]. rewrite N.eqb_refl. apply Hs. lia.
    + destruct (IH 0 ltac:(lia) H) as [Hs Hcn].
      assert (forall m, 1 <= m -> startswith (repeat LF m) (c :: s) = false)
        as Hstart.
      { intros m Hm. destruct m as [|m]; [lia|]. cbn [repeat startswith].
        destruct (N.eqb_spec LF c); [congruence | reflexivity]. }
      split; [intros m Hm; apply Hstart; lia|].
      cbn [contains]. rewrite Hcn, orb_false_r. apply Hstart. lia.
Qed.

Lemma unbroken_no_lf l k rest :
  unbroken l = true -> l <> [] ->
  lf_runs_ok k (l ++ rest) = lf_runs_ok 0 rest.
Proof.
  intros Hu Hne. destruct l as [|c l]; [congruence|]. clear Hne.
  revert k c Hu. induction l as [|d l IH]; intros k c Hu.
  - simpl in *. rewrite andb_true_r in Hu.
    destruct (N.eqb_spec c LF) as [->|]; [discriminate | reflexivity].
  - change ((c :: d :: l) ++ rest) with (c :: (d :: l) ++ rest).
    cbn [lf_runs_ok]. unfold unbroken in Hu. cbn [forallb] in Hu.
    apply andb_true_iff in Hu. destruct Hu as [Hc Hu].
    destruct (N.eqb_spec c LF) as [->|]; [discriminate|].
    apply IH. exact Hu.
Qed.

Lemma joined_lines_runs_ok lines :
  forall j k, k <= j + 1 ->
    blank_runs_ok j lines = true ->
    (forall l, In l lines -> blank l = true -> l = []) ->
    (forall l, In l lines -> unbroken l = true) ->
    lf_runs_ok k (join [LF] lines) = true.
Proof.
  induction lines as [|l lines IH]; intros j k Hk Hr He Hu; [reflexivity|].
  cbn [blank_runs_ok] in Hr.
  assert (forall x, In x lines -> blank x = true -> x = []) as He'
      by (intros x Hx; apply He; right; exact Hx).
  assert (forall x, In x lines -> unbroken x = true) as Hu'
      by (intros x Hx; apply Hu; right; exact Hx).
  destruct (blank l) eqn:B.
  - rewrite (He l (or_introl eq_refl) B).
    apply andb_true_iff in Hr. destruct Hr as [Hlt Hr].
    apply Nat.ltb_lt in Hlt.
    destruct lines as [|l' lines]; [reflexivity|].
    change (join [LF] ([] :: l' :: lines))
      with (LF :: join [LF] (l' :: lines)).
    cbn [lf_runs_ok]. rewrite N.eqb_refl.
    apply andb_true_iff. split; [apply Nat.ltb_lt; lia|].
    apply (IH (Datatypes.S j)); auto. lia.
  - assert (l <> []) as Hne by (intros ->; discriminate).
    pose proof (Hu l (or_introl eq_refl)) as Hl.
    destruct lines as [|l' lines].
    + cbn [join]. rewrite <- (app_nil_r l).
      rewrite unbroken_no_lf by assumption. reflexivity.
    + change (join [LF] (l :: l' :: lines))
        with (l ++ LF :: join [LF] (l' :: lines)).
      rewrite unbroken_no_lf by assumption.
      cbn [lf_runs_ok]. rewrite N.eqb_refl. cbn [Nat.ltb Nat.leb andb].
      apply (IH 0); auto.
Qed.

Lemma contains_after pre needle s :
  contains needle s = true -> contains needle (pre ++ s) = true.
Proof.
  intros H. induction pre as [|c pre IH]; [exact H|].
  cbn [app contains]. rewrite IH. apply orb_true_r.
Qed.

(** X2. The normalized body never holds four line feeds in a row, that is,
    three empty lines in a row. *)
Theorem normalize_whitespace_no_four_line_feeds (markdown_body : str) :
  contains [LF; LF; LF; LF] (normalize_whitespace markdown_body) = false.
Proof.
  unfold normalize_whitespace.
  set (lines := splitlines markdown_body).
  set (joined := join [LF] (clean_blank_lines lines)).
  assert (lf_runs_ok 0 joined = true) as Hj.
  { apply (joined_lines_runs_ok (clean_blank_lines lines) 0 0); [lia | | |].
    - exact (cleaned_from_runs_ok lines 0%Z (Z.le_refl 0)).
    - apply cleaned_from_blank_is_empty.
    - intros l Hl. destruct (cleaned_from_lines 0 lines l Hl) as [->|Hin];
        [reflexivity | exact (splitlines_unbroken markdown_body l Hin)]. }
  destruct (lf_runs_ok_sound joined 0 ltac:(lia) Hj) as [_ Hc].
  destruct (strip_spec joined) as [lead [trail [E _]]].
  destruct (contains [LF; LF; LF; LF] (strip joined)) eqn:C; [|reflexivity].
  change [LF; LF; LF; LF] with (repeat LF 4) in *.
  rewrite E in Hc.
  rewrite (contains_after lead _ _ (contains_app _ _ trail C)) in Hc.
  discriminate.
Qed.

(** ** Normalizing twice *)

Lemma blank_app a b : blank (a ++ b) = blank a && blank b.
Proof. apply forallb_app. Qed.

Lemma lstrip_app_blank l r : blank l = true -> lstrip (l ++ r) = lstrip r.
Proof.
  unfold blank. induction l as [|c l IH]; simpl; [reflexivity|].
  intros H. apply andb_true_iff in H. destruct H as [-> H]. apply IH, H.
Qed.

Lemma lstrip_app_text l r :
  blank l = false -> lstrip (l ++ r) = lstrip l ++ r.
Proof.
  unfold blank. induction l as [|c l IH]; simpl; [discriminate|].
  destruct (isspace c); simpl; [exact IH | reflexivity].
Qed.

Lemma rstrip_app_blank a b : blank b = true -> rstrip (a ++ b) = rstrip a.
Proof.
  intros H. unfold rstrip. rewrite rev_app_distr.
  rewrite lstrip_app_blank by (rewrite blank_rev; exact H). reflexivity.
Qed.

Lemma rstrip_app_text a b :
  blank b = false -> rstrip (a ++ b) = a ++ rstrip b.
Proof.
  intros H. unfold rstrip. rewrite rev_app_distr.
  rewrite lstrip_app_text by (rewrite blank_rev; exact H).
  rewrite rev_app_distr, rev_involutive. reflexivity.
Qed.

Lemma blank_lstrip l : blank (lstrip l) = blank l.
Proof.
  destruct (lstrip_split l) as [lead [E A]].
  rewrite E at 2. rewrite blank_app. unfold blank at 2. rewrite A.
  reflexivity.
Qed.

Lemma blank_rstrip l : blank (rstrip l) = blank l.
Proof.
  destruct (rstrip_split l) as [trail [E A]].
  rewrite E at 2. rewrite blank_app. unfold blank at 3. rewrite A.
  symmetry. apply andb_true_r.
Qed.

Lemma unbroken_lstrip l : unbroken l = true -> unbroken (lstrip l) = true.
Proof.
  destruct (lstrip_split l) as [lead [E _]]. intros H. rewrite E in H.
  unfold unbroken in *. rewrite forallb_app in H.
  apply andb_true_iff in H. tauto.
Qed.

Lemma unbroken_rstrip l : unbroken l = true -> unbroken (rstrip l) = true.
Proof.
  destruct (rstrip_split l) as [trail [E _]]. intros H. rewrite E in H.
  unfold unbroken in *. rewrite forallb_app in H.
  apply andb_true_iff in H. tauto.
Qed.

Lemma blank_join lines : blank (join [LF] lines) = forallb blank lines.
Proof.
  induction lines as [|l lines IH]; [reflexivity|].
  destruct lines as [|l' lines].
  - simpl. rewrite andb_true_r. reflexivity.
  - change (join [LF] (l :: l' :: lines))
      with (l ++ LF :: join [LF] (l' :: lines)).
    rewrite blank_app.
    change (forallb blank (l :: l' :: lines))
      with (blank l && forallb blank (l' :: lines)).
    rewrite <- IH. reflexivity.
Qed.

Lemma lstrip_join lines :
  lstrip (join [LF] lines) = join [LF] (lstrip_lines lines).
Proof.
  induction lines as [|l lines IH]; [reflexivity|].
  destruct lines as [|l' lines].
  - cbn [join lstrip_lines]. destruct (blank l) eqn:B; [|reflexivity].
    apply lstrip_nil_iff, B.
  - change (join [LF] (l :: l' :: lines))
      with (l ++ LF :: join [LF] (l' :: lines)).
    cbn [lstrip_lines]. destruct (blank l) eqn:B.
    + rewrite lstrip_app_blank by exact B. exact IH.
    + rewrite lstrip_app_text by exact B. reflexivity.
Qed.

Lemma rstrip_lines_nil lines :
  rstrip_lines lines = [] <-> forallb blank lines = true.
Proof.
  induction lines as [|l lines IH]; [simpl; tauto|].
  cbn [rstrip_lines forallb]. destruct (rstrip_lines lines) as [|r rs].
  - destruct (blank l); simpl.
    + split; [intros _; apply IH; reflexivity | reflexivity].
    + split; discriminate.
  - split; [discriminate|]. intros H. apply andb_true_iff in H.
    destruct H as [_ H]. apply IH in H. discriminate.
Qed.

Lemma rstrip_blank l : blank l = true -> rstrip l = [].
Proof.
  intros H. unfold rstrip.
  replace (lstrip (rev l)) with (@nil N); [reflexivity|].
  symmetry. apply lstrip_nil_iff. rewrite blank_rev. exact H.
Qed.

Lemma rstrip_join lines :
  rstrip (join [LF] lines) = join [LF] (rstrip_lines lines).
Proof.
  induction lines as [|l lines IH]; [reflexivity|].
  destruct lines as [|l' lines].
  - cbn [join rstrip_lines]. destruct (blank l) eqn:B; [|reflexivity].
    apply rstrip_blank, B.
  - change (join [LF] (l :: l' :: lines))
      with (l ++ LF :: join [LF] (l' :: lines)).
    change (rstrip_lines (l :: l' :: lines))
      with (match rstrip_lines (l' :: lines) with
            | [] => if blank l then [] else [rstrip l]
            | r :: rs => l :: r :: rs
            end).
    destruct (forallb blank (l' :: lines)) eqn:A.
    + rewrite (proj2 (rstrip_lines_nil (l' :: lines)) A).
      rewrite rstrip_app_blank
        by (change (LF :: join [LF] (l' :: lines))
              with ([LF] ++ join [LF] (l' :: lines));
            rewrite blank_app, blank_join, A; reflexivity).
      destruct (blank l) eqn:B; [apply rstrip_blank, B | reflexivity].
    + rewrite rstrip_app_text
        by (change (LF :: join [LF] (l' :: lines))
              with ([LF] ++ join [LF] (l' :: lines));
            rewrite blank_app, blank_join, A; reflexivity).
      change (LF :: join [LF] (l' :: lines))
        with ([LF] ++ join [LF] (l' :: lines)).
      rewrite rstrip_app_text by (rewrite blank_join; exact A).
      rewrite IH.
      destruct (rstrip_lines (l' :: lines)) as [|r rs] eqn:R.
      * apply rstrip_lines_nil in R. congruence.
      * reflexivity.
Qed.

(** [splitlines] gives back the lines that were joined, when none holds a
    line boundary and the last one is not blank. *)
Lemma splitlines_join lines :
  (forall l, In l lines -> unbroken l = true) ->
  closes_with_text lines = true ->
  splitlines (join [LF] lines) = lines.
Proof.
  unfold splitlines. induction lines as [|l lines IH]; intros Hu Hc;
    [reflexivity|].
  pose proof (Hu l (or_introl eq_refl)) as Hl.
  destruct lines as [|l' lines].
  - cbn [join]. rewrite <- (app_nil_r l) at 1.
    rewrite splitlines_from_unbroken_app by exact Hl.
    simpl. simpl in Hc. destruct l; [discriminate | reflexivity].
  - change (join [LF] (l :: l' :: lines))
      with (l ++ LF :: join [LF] (l' :: lines)).
    rewrite splitlines_from_unbroken_app by exact Hl.
    rewrite splitlines_from_lf. simpl app. f_equal.
    apply IH; [intros x Hx; apply Hu; right; exact Hx | exact Hc].
Qed.

Lemma neat_lstrip l : blank l = false -> neat l = true -> neat (lstrip l) = true.
Proof.
  unfold neat. intros B H. apply andb_true_iff in H. destruct H as [_ H].
  rewrite blank_lstrip, B, unbroken_lstrip by exact H. reflexivity.
Qed.

Lemma neat_rstrip l : blank l = false -> neat l = true -> neat (rstrip l) = true.
Proof.
  unfold neat. intros B H. apply andb_true_iff in H. destruct H as [_ H].
  rewrite blank_rstrip, B, unbroken_rstrip by exact H. reflexivity.
Qed.

Lemma lstrip_lines_neat lines :
  forallb neat lines = true -> forallb neat (lstrip_lines lines) = true.
Proof.
  induction lines as [|l lines IH]; [reflexivity|]. cbn [forallb lstrip_lines].
  intros H. apply andb_true_iff in H. destruct H as [Hl H].
  destruct (blank l) eqn:B; [exact (IH H)|].
  cbn [forallb]. rewrite (neat_lstrip l B Hl), H. reflexivity.
Qed.

Lemma rstrip_lines_neat lines :
  forallb neat lines = true -> forallb neat (rstrip_lines lines) = true.
Proof.
  induction lines as [|l lines IH]; [reflexivity|]. cbn [forallb rstrip_lines].
  intros H. apply andb_true_iff in H. destruct H as [Hl H].
  specialize (IH H). destruct (rstrip_lines lines) as [|r rs].
  - destruct (blank l) eqn:B; [reflexivity|].
    cbn [forallb]. rewrite (neat_rstrip l B Hl). reflexivity.
  - cbn [forallb] in *. rewrite Hl. exact IH.
Qed.

Lemma lstrip_lines_runs_ok lines :
  forall k, blank_runs_ok k lines = true ->
            blank_runs_ok 0 (lstrip_lines lines) = true.
Proof.
  induction lines as [|l lines IH]; intros k H; [reflexivity|].
  cbn [blank_runs_ok lstrip_lines] in *. destruct (blank l) eqn:B.
  - apply andb_true_iff in H. destruct H as [_ H]. exact (IH _ H).
  - cbn [blank_runs_ok]. rewrite blank_lstrip, B. exact H.
Qed.

Lemma rstrip_lines_runs_ok lines :
  forall k, blank_runs_ok k lines = true ->
            blank_runs_ok k (rstrip_lines lines) = true.
Proof.
  induction lines as [|l lines IH]; intros k H; [reflexivity|].
  cbn [blank_runs_ok rstrip_lines] in *.
  destruct (blank l) eqn:B.
  - apply andb_true_iff in H. destruct H as [Hk H].
    specialize (IH _ H). destruct (rstrip_lines lines) as [|r rs];
      [reflexivity|].
    change (blank_runs_ok k (l :: r :: rs))
      with (if blank l
            then (k <? 2)%nat && blank_runs_ok (Datatypes.S k) (r :: rs)
            else blank_runs_ok 0 (r :: rs)).
    rewrite B, Hk. exact IH.
  - specialize (IH _ H). destruct (rstrip_lines lines) as [|r rs].
    + cbn [blank_runs_ok]. rewrite blank_rstrip, B. reflexivity.
    + change (blank_runs_ok k (l :: r :: rs))
        with (if blank l
              then (k <? 2)%nat && blank_runs_ok (Datatypes.S k) (r :: rs)
              else blank_runs_ok 0 (r :: rs)).
      rewrite B. exact IH.
Qed.

Lemma rstrip_lines_closes lines : closes_with_text (rstrip_lines lines) = true.
Proof.
  induction lines as [|l lines IH]; [reflexivity|]. cbn [rstrip_lines].
  destruct (rstrip_lines lines) as [|r rs].
  - destruct (blank l) eqn:B; [reflexivity|].
    cbn [closes_with_text]. rewrite blank_rstrip, B. reflexivity.
  - exact IH.
Qed.

Lemma cleaned_neat lines :
  (forall l, In l lines -> unbroken l = true) ->
  forallb neat (clean_blank_lines lines) = true.
Proof.
  intros Hu. apply forallb_forall. intros l Hl. unfold neat.
  apply andb_true_iff. split.
  - destruct (blank l) eqn:B; [|reflexivity].
    rewrite (cleaned_from_blank_is_empty 0 lines l Hl B). reflexivity.
  - destruct (cleaned_from_lines 0 lines l Hl) as [->|Hin];
      [reflexivity | exact (Hu l Hin)].
Qed.

Lemma lstrip_fixed s :
  match s with [] => True | c :: _ => isspace c = false end -> lstrip s = s.
Proof. destruct s as [|c r]; [reflexivity | simpl; intros ->; reflexivity]. Qed.

Lemma rstrip_fixed s :
  match rev s with [] => True | c :: _ => isspace c = false end ->
  rstrip s = s.
Proof.
  intros H. unfold rstrip. rewrite (lstrip_fixed _ H). apply rev_involutive.
Qed.

Lemma strip_idempotent s : strip (strip s) = strip s.
Proof.
  destruct (strip_spec s) as [lead [trail [_ [_ [_ [Hh Hl]]]]]].
  unfold strip at 1. rewrite (lstrip_fixed _ Hh). apply rstrip_fixed, Hl.
Qed.

(** X3. Normalizing a normalized body changes nothing. *)
Theorem normalize_whitespace_idempotent (markdown_body : str) :
  normalize_whitespace (normalize_whitespace markdown_body)
  = normalize_whitespace markdown_body.
Proof.
  unfold normalize_whitespace at 2.
  set (cleaned := clean_blank_lines (splitlines markdown_body)).
  assert (forallb neat cleaned = true) as Hn
      by (apply cleaned_neat, splitlines_unbroken).
  assert (blank_runs_ok 0 cleaned = true) as Hr
      by exact (cleaned_from_runs_ok (splitlines markdown_body) 0%Z
                  (Z.le_refl 0)).
  unfold strip. rewrite lstrip_join, rstrip_join.
  set (kept := rstrip_lines (lstrip_lines cleaned)).
  assert (forallb neat kept = true) as Kn
      by (apply rstrip_lines_neat, lstrip_lines_neat, Hn).
  assert (blank_runs_ok 0 kept = true) as Kr
      by (apply rstrip_lines_runs_ok, (lstrip_lines_runs_ok cleaned 0), Hr).
  assert (forall l, In l kept -> unbroken l = true) as Ku.
  { intros l Hl. pose proof (proj1 (forallb_forall _ _) Kn l Hl) as H.
    unfold neat in H. apply andb_true_iff in H. tauto. }
  assert (forall l, In l kept -> blank l = true -> l = []) as Ke.
  { intros l Hl B. pose proof (proj1 (forallb_forall _ _) Kn l Hl) as H.
    unfold neat in H. rewrite B in H. simpl in H.
    apply andb_true_iff in H. destruct H as [H _]. apply str_eqb_eq, H. }
  unfold normalize_whitespace.
  rewrite (splitlines_join kept Ku (rstrip_lines_closes _)).
  change (clean_blank_lines kept) with (cleaned_from (Z.of_nat 0) kept).
  rewrite (cleaned_again 0 kept Kr Ke).
  unfold kept. rewrite <- rstrip_join, <- lstrip_join.
  fold (strip (join [LF] cleaned)).
  apply strip_idempotent.
Qed.

Lemma splitlines_from_chars (P : N -> bool) :
  forall n s, List.length s <= n ->
    forall line, forallb P line = true -> forallb P s = true ->
      forall l, In l (splitlines_from line s) -> forallb P l = true.
Proof.
  induction n as [|n IH]; intros s Hlen line Hline Hs l Hl.
  - destruct s; [|simpl in Hlen; lia]. simpl in Hl.
    destruct line; [destruct Hl | destruct Hl as [<-|[]]; exact Hline].
  - destruct s as [|c rest].
    + simpl in Hl.
      destruct line; [destruct Hl | destruct Hl as [<-|[]]; exact Hline].
    + simpl in Hlen. cbn [forallb] in Hs. apply andb_true_iff in Hs.
      destruct Hs as [Hc Hs]. cbn [splitlines_from] in Hl.
      destruct (islinebreak c).
      * destruct Hl as [<-|Hl]; [exact Hline|].
        destruct rest as [|c' rest']; [destruct Hl|].
        simpl in Hlen. cbn [forallb] in Hs. apply andb_true_iff in Hs.
        destruct Hs as [Hc' Hs'].
        destruct ((c =? CR) && (c' =? LF))%N.
        -- apply (IH rest' ltac:(lia) [] eq_refl Hs' l Hl).
        -- apply (IH (c' :: rest') ltac:(simpl; lia) [] eq_refl); auto.
           cbn [forallb]. rewrite Hc', Hs'. reflexivity.
      * apply (IH rest ltac:(lia) (line ++ [c])); auto.
        rewrite forallb_app, Hline. simpl. rewrite Hc. reflexivity.
Qed.

(** X4. A body of whitespace only, the empty body among them, is normalized to
    the empty body. *)
Theorem normalize_whitespace_blank (markdown_body : str) :
  blank markdown_body = true -> normalize_whitespace markdown_body = [].
Proof.
  intros B. unfold normalize_whitespace. apply strip_nil_iff.
  rewrite blank_join. apply forallb_forall. intros l Hl.
  destruct (cleaned_from_lines 0 _ l Hl) as [->|Hin]; [reflexivity|].
  exact (splitlines_from_chars isspace (List.length markdown_body)
           markdown_body (Nat.le_refl _) [] eq_refl B l Hin).
Qed.

Lemma normalize_whitespace_blank_witness :
  normalize_whitespace [32; LF; 9; CR; LF; 32]%N = [].
Proof. exact (normalize_whitespace_blank [32; LF; 9; CR; LF; 32]%N eq_refl). Defined.

Lemma clean_blank_lines_no_triple_witness :
  clean_blank_lines [lit "a"; []; []; []; lit "b"]
  = [lit "a"] ++ [] :: [] :: [] :: [lit "b"] -> False.
Proof.
  intros E.
  exact (clean_blank_lines_no_triple _ [lit "a"] [lit "b"] [] [] [] E
           eq_refl eq_refl eq_refl).
Defined.

(** ** Metadata, continued *)

Lemma entry_trimmed source value :
  entry source = Some value -> strip value = value.
Proof.
  unfold entry. destruct source as [s|]; [|discriminate].
  destruct (truthy s); [|discriminate].
  intros E. inversion E. apply strip_idempotent.
Qed.

Lemma in_item key source k v :
  In (k, v) (item key source) -> k = key /\ source = Some v.
Proof.
  unfold item. destruct source as [s|]; [|intros []].
  intros [E|[]]. inversion E. auto.
Qed.

(** X5. Every value of the mapping is trimmed: it has no whitespace at either
    end. *)
Theorem extract_metadata_values_trimmed (soup : PageElement)
    (key value : str) :
  In (key, value) (extract_metadata soup) -> strip value = value.
Proof.
  rewrite extract_metadata_items. rewrite !in_app_iff.
  intros [H|[H|[H|[H|H]]]]; apply in_item in H; destruct H as [_ H];
    exact (entry_trimmed _ _ H).
Qed.

Lemma extract_metadata_values_trimmed_witness :
  strip (lit "Ann") = lit "Ann".
Proof.
  apply (extract_metadata_values_trimmed doc_full_head (lit "author")).
  vm_compute. auto.
Defined.

(** X6. The keys of the mapping are keys of the fixed list, in the order of
    that list, each at most once, wherever their sources stand in the
    document. *)
Theorem extract_metadata_keys (soup : PageElement) :
  subseq (keys (extract_metadata soup)) KEY_ORDER
  /\ NoDup (keys (extract_metadata soup)).
Proof.
  assert (NoDup KEY_ORDER) as Hk.
  { unfold KEY_ORDER.
    repeat (constructor; [simpl; intuition discriminate|]). constructor. }
  assert (subseq (keys (extract_metadata soup)) KEY_ORDER) as Hs.
  { rewrite extract_metadata_items. unfold KEY_ORDER.
    destruct (entry (title_source soup));
      destruct (entry (meta_source (lit "name") (lit "description") soup));
      destruct (entry (meta_source (lit "name") (lit "author") soup));
      destruct (entry (meta_source (lit "name") (lit "keywords") soup));
      destruct (entry (meta_source (lit "property") (lit "og:image") soup));
      cbn [item app keys map fst];
      repeat (first [apply subseq_nil | apply subseq_keep
                    | apply subseq_skip]). }
  split; [exact Hs | exact (subseq_NoDup _ _ Hs Hk)].
Qed.

Lemma list_find_none {A : Type} (p : A -> bool) (l : list A) :
  (forall x, In x l -> p x = false) -> List.find p l = None.
Proof.
  induction l as [|x l IH]; intros H; [reflexivity|]. simpl.
  rewrite (H x (or_introl eq_refl)). apply IH. intros y Hy. apply H.
  right. exact Hy.
Qed.

Lemma find_none_named n attrs soup :
  (forall e, In e (descendants soup) -> named n e = false) ->
  find n attrs soup = None.
Proof.
  intros H. unfold find. apply list_find_none. intros e He.
  unfold find_matches. rewrite (H e He). reflexivity.
Qed.

(** X7. A document with no [title] and no [meta] element has the empty
    mapping, and its output is the normalized body with nothing put before
    it. *)
Theorem no_head_elements_no_front_matter (soup : PageElement) :
  (forall e, In e (descendants soup) ->
             named (lit "title") e = false /\ named (lit "meta") e = false) ->
  extract_metadata soup = []
  /\ forall to_html md extra,
       fst (convert_soup to_html md extra soup)
       = normalize_whitespace (md (to_html (pruned_root extra soup))).
Proof.
  intros H.
  assert (extract_metadata soup = []) as E.
  { unfold extract_metadata. cbn [fold_left].
    rewrite (find_none_named (lit "title") [] soup)
      by (intros e He; apply H, He).
    rewrite !(find_none_named (lit "meta"))
      by (intros e He; apply H, He).
    reflexivity. }
  split; [exact E|]. intros to_html md extra.
  unfold convert_soup. cbn [fst]. rewrite E. reflexivity.
Qed.

Lemma no_head_elements_no_front_matter_witness :
  extract_metadata doc_minimal = [].
Proof.
  apply (no_head_elements_no_front_matter doc_minimal).
  intros e He. vm_compute in He.
  repeat (destruct He as [<-|He]; [split; reflexivity|]). destruct He.
Defined.

(** ** Front matter, continued *)

Lemma title_entry_comes_first (soup t : PageElement) (s : str) :
  first_in_document is_title soup t ->
  string_of t = Some s -> s <> [] ->
  forall to_html md extra,
    exists rest,
      fst (convert_soup to_html md extra soup)
      = lit "---" ++ [LF] ++ front_matter_line (lit "title", strip s)
        ++ [LF] ++ rest.
Proof.
  intros Ht Hs Hne to_html md extra.
  assert (exists others,
             extract_metadata soup = (lit "title", strip s) :: others)
    as [others E].
  { rewrite extract_metadata_items, (title_source_first soup t Ht), Hs.
    unfold entry at 1. destruct s as [|c s]; [congruence|].
    cbn [truthy item app]. eexists. reflexivity. }
  unfold convert_soup. cbn [fst]. rewrite E.
  unfold build_front_matter. cbn [map app].
  rewrite join_cons by discriminate.
  rewrite join_cons by (destruct (map front_matter_line others); discriminate).
  eexists. rewrite <- !app_assoc. reflexivity.
Qed.

(** X8. A page whose first [title] element holds one string, not empty and
    with no line boundary once trimmed: the first line of the output is the
    delimiter and the second is the title entry. *)
Theorem title_line_comes_first (soup t : PageElement) (s : str) :
  first_in_document is_title soup t ->
  string_of t = Some s -> s <> [] ->
  unbroken (strip s) = true ->
  forall to_html md extra,
    exists more,
      splitlines (fst (convert_soup to_html md extra soup))
      = lit "---" :: front_matter_line (lit "title", strip s) :: more.
Proof.
  intros Ht Hs Hne Hu to_html md extra.
  destruct (title_entry_comes_first soup t s Ht Hs Hne to_html md extra)
    as [rest ->].
  exists (splitlines rest).
  replace (lit "---" ++ [LF] ++ front_matter_line (lit "title", strip s)
           ++ [LF] ++ rest)
    with (terminated [lit "---"; front_matter_line (lit "title", strip s)]
          ++ rest)
    by (unfold terminated; cbn [map List.concat];
        rewrite app_nil_r, <- !app_assoc; reflexivity).
  rewrite splitlines_terminated; [reflexivity|].
  intros l [<-|[<-|[]]]; [reflexivity|].
  exact (unbroken_front_matter_line (lit "title") (strip s) eq_refl Hu).
Qed.

Lemma title_line_comes_first_witness :
  exists more,
    splitlines (fst (convert_soup (fun _ => []) (fun m => m) [] doc_full_head))
    = lit "---" :: front_matter_line (lit "title", strip (lit " Home "))
      :: more.
Proof.
  pose proof (find_spec (lit "title") [] is_title doc_full_head
                (find_matches_name _)) as H.
  assert (find (lit "title") [] doc_full_head
          = Some (el 7 "title" [] [txt " Home "])) as E
      by (vm_compute; reflexivity).
  rewrite E in H.
  apply (title_line_comes_first doc_full_head _ (lit " Home ") H eq_refl).
  - discriminate.
  - reflexivity.
Defined.

(** X10. The output never begins with whitespace: it begins with the delimiter,
    or it is the trimmed body. *)
Theorem output_has_no_leading_whitespace (to_html : PageElement -> str)
    (md : str -> str) (extra : list selector) (soup : PageElement) :
  match fst (convert_soup to_html md extra soup) with
  | [] => True
  | c :: _ => isspace c = false
  end.
Proof.
  unfold convert_soup. cbn [fst].
  destruct (extract_metadata soup) as [|m metadata].
  - cbn [build_front_matter]. unfold normalize_whitespace.
    destruct (strip_spec (join [LF]
                (clean_blank_lines
                   (splitlines (md (to_html (pruned_root extra soup)))))))
      as [lead [trail [_ [_ [_ [H _]]]]]].
    exact H.
  - cbn [build_front_matter app map].
    destruct (map front_matter_line metadata ++ [lit "---"]);
      reflexivity.
Qed.

(** ** Pruning, continued *)

Lemma filter_none {A : Type} (p : A -> bool) (l : list A) :
  (forall x, In x l -> p x = false) -> filter p l = [].
Proof.
  induction l as [|x l IH]; intros H; [reflexivity|]. simpl.
  rewrite (H x (or_introl eq_refl)). apply IH. intros y Hy. apply H.
  right. exact Hy.
Qed.

Lemma remove_all_free_root q root : free q root -> remove_all q root = root.
Proof.
  intros H. unfold remove_all. rewrite (filter_none q _ H). reflexivity.
Qed.

Lemma strip_free_root rules :
  forall root,
    (forall s, In s rules -> free (sel_matches root s) root) ->
    strip_non_content rules root = root.
Proof.
  induction rules as [|s rules IH]; intros root H; [reflexivity|].
  change (strip_non_content (s :: rules) root)
    with (strip_non_content rules (remove_all (sel_matches root s) root)).
  rewrite remove_all_free_root by (apply H; left; reflexivity).
  apply IH. intros r Hr. apply H. right. exact Hr.
Qed.

(** X13. A tree in which nothing below the root matches a rule comes back
    as it is, whatever the selectors are. *)
Theorem strip_non_content_nothing_to_strip (rules : list selector)
    (root : PageElement) :
  (forall s e, In s rules -> In e (descendants root) ->
               sel_matches root s e = false) ->
  strip_non_content rules root = root.
Proof.
  intros H. apply strip_free_root. intros s Hs e He. exact (H s e Hs He).
Qed.

Lemma strip_non_content_nothing_to_strip_witness :
  strip_non_content DEFAULT_STRIP_SELECTORS
    (el 1 "main" [] [el 2 "p" [] [txt "Text"]])
  = el 1 "main" [] [el 2 "p" [] [txt "Text"]].
Proof.
  apply strip_non_content_nothing_to_strip.
  intros s e Hs He. vm_compute in He.
  destruct He as [<-|[<-|[]]]; vm_compute in Hs;
    repeat (destruct Hs as [<-|Hs]; [reflexivity|]); destruct Hs.
Defined.

(** X14. For rules that test an element by its own name and attributes
    (the forms of the default list), pruning a pruned tree changes
    nothing. *)
Theorem strip_non_content_idempotent (rules : list selector)
    (root : PageElement) :
  Forall element_local rules ->
  strip_non_content rules (strip_non_content rules root)
  = strip_non_content rules root.
Proof.
  intros Hl. apply strip_free_root. intros s Hs.
  apply strip_free; [exact Hs|].
  exact (proj1 (Forall_forall _ _) Hl s Hs).
Qed.

Lemma strip_non_content_idempotent_witness :
  strip_non_content DEFAULT_STRIP_SELECTORS
    (strip_non_content DEFAULT_STRIP_SELECTORS root_nested_nav)
  = strip_non_content DEFAULT_STRIP_SELECTORS root_nested_nav.
Proof.
  exact (strip_non_content_idempotent DEFAULT_STRIP_SELECTORS root_nested_nav
           default_rules_local).
Defined.

Lemma matches_any_same_rules rules rules' root e :
  (forall s, In s rules <-> In s rules') ->
  matches_any rules root e = matches_any rules' root e.
Proof.
  intros H. unfold matches_any.
  destruct (existsb (fun s => sel_matches root s e) rules) eqn:A;
    destruct (existsb (fun s => sel_matches root s e) rules') eqn:B;
    try reflexivity.
  - apply existsb_exists in A. destruct A as [s [Hs M]].
    apply H in Hs.
    assert (existsb (fun s => sel_matches root s e) rules' = true)
      by (apply existsb_exists; eauto).
    congruence.
  - apply existsb_exists in B. destruct B as [s [Hs M]].
    apply H in Hs.
    assert (existsb (fun s => sel_matches root s e) rules = true)
      by (apply existsb_exists; eauto).
    congruence.
Qed.

(** X15. With one identity per tag and rules that test an element by its
    own name and attributes, the result depends on which rules there are,
    not on their order or on repetitions. *)
Theorem strip_non_content_order_irrelevant (rules rules' : list selector)
    (root : PageElement) :
  Forall element_local rules ->
  NoDup (uids root) ->
  (forall s, In s rules <-> In s rules') ->
  strip_non_content rules root = strip_non_content rules' root.
Proof.
  intros Hl Hn H.
  assert (Forall element_local rules') as Hl'.
  { apply Forall_forall. intros s Hs. apply H in Hs.
    exact (proj1 (Forall_forall _ _) Hl s Hs). }
  rewrite !strip_non_content_exact by assumption.
  apply prune_ext. intros e. apply matches_any_same_rules, H.
Qed.

Lemma strip_non_content_order_irrelevant_witness :
  strip_non_content [TypeSel (lit "nav"); ClassSel (lit "sidebar")]
    root_nested_nav
  = strip_non_content
      [ClassSel (lit "sidebar"); TypeSel (lit "nav"); ClassSel (lit "sidebar")]
      root_nested_nav.
Proof.
  apply strip_non_content_order_irrelevant.
  - repeat constructor; auto with selectors.
  - vm_compute. repeat constructor; simpl; intuition discriminate.
  - intros s. simpl. tauto.
Defined.

Lemma in_prune_forest p c cs :
  In c cs -> p c = false -> In (prune p c) (prune_forest p cs).
Proof.
  intros Hc Pc. unfold prune_forest. apply in_flat_map. exists c.
  rewrite Pc. simpl. auto.
Qed.

Lemma in_forest_descendants_of c cs x :
  In c cs -> x = c \/ In x (descendants c) -> In x (forest_descendants cs).
Proof.
  intros Hc Hx. unfold forest_descendants. apply in_flat_map. exists c.
  simpl. intuition.
Qed.

Lemma kept_path_prune p root e :
  kept_path p root e -> In (prune p e) (descendants (prune p root)).
Proof.
  induction 1 as [u n a cs c Hc Pc | u n a cs c e Hc Pc _ IH];
    rewrite prune_tag, descendants_tag;
    apply (in_forest_descendants_of (prune p c));
      auto using in_prune_forest.
Qed.

(** X16. With one identity per tag and rules that test an element by its
    own name and attributes, pruning removes nothing else: an element that
    matches no rule, below elements that match no rule, is still in the
    tree afterwards, with what is left of its own contents. *)
Theorem strip_non_content_keeps_content (rules : list selector)
    (root e : PageElement) :
  Forall element_local rules ->
  NoDup (uids root) ->
  kept_path (matches_any rules root) root e ->
  In (strip_non_content rules e)
     (descendants (strip_non_content rules root)).
Proof.
  intros Hl Hn Hk.
  assert (In e (descendants root)) as He.
  { clear Hn. induction Hk as [u n a cs c Hc Pc | u n a cs c e Hc Pc _ IH];
      rewrite descendants_tag;
      apply (in_forest_descendants_of c); auto. }
  assert (NoDup (uids e)) as Hne.
  { clear Hk. revert Hn He.
    induction root as [s|u n a cs IH] using PageElement_nested_ind;
      intros Hn He; [destruct He|].
    rewrite uids_tag in Hn. rewrite descendants_tag in He.
    induction IH as [|c l Hc _ IHl]; [destruct He|].
    rewrite uids_of_forest_cons in Hn.
    destruct (NoDup_app_inv _ _ Hn) as [_ [N23 _]].
    destruct (NoDup_app_inv _ _ N23) as [Nc [Nl _]].
    apply in_forest_descendants in He. destruct He as [->|[He|He]]; auto. }
  rewrite !strip_non_content_exact by assumption.
  rewrite (prune_ext (matches_any rules e) (matches_any rules root))
    by (intros x; apply matches_any_any_root, Hl).
  apply kept_path_prune, Hk.
Qed.

Lemma strip_non_content_keeps_content_witness :
  In (strip_non_content DEFAULT_STRIP_SELECTORS (el 4 "p" [] [txt "Text"]))
     (descendants (strip_non_content DEFAULT_STRIP_SELECTORS root_nested_nav)).
Proof.
  apply strip_non_content_keeps_content.
  - exact default_rules_local.
  - vm_compute. repeat constructor; simpl; intuition discriminate.
  - apply kept_child; [simpl; auto | reflexivity].
Defined.

Lemma descendant_NoDup root :
  forall e, NoDup (uids root) -> In e (descendants root) -> NoDup (uids e).
Proof.
  induction root as [s|u n a cs IH] using PageElement_nested_ind;
    intros e Hn He; [destruct He|].
  rewrite uids_tag in Hn. rewrite descendants_tag in He.
  induction IH as [|c l Hc _ IHl]; [destruct He|].
  rewrite uids_of_forest_cons in Hn.
  destruct (NoDup_app_inv _ _ Hn) as [_ [N23 _]].
  destruct (NoDup_app_inv _ _ N23) as [Nc [Nl _]].
  apply in_forest_descendants in He. destruct He as [->|[He|He]]; auto.
Qed.

Lemma find_in n attrs soup e :
  find n attrs soup = Some e -> In e (descendants soup).
Proof. unfold find. intros H. apply find_some in H. tauto. Qed.

Lemma content_root_in soup :
  content_root soup = soup \/ In (content_root soup) (descendants soup).
Proof.
  unfold content_root.
  destruct (find (lit "main") [] soup) eqn:F1;
    [right; exact (find_in _ _ _ _ F1)|].
  destruct (find (lit "article") [] soup) eqn:F2;
    [right; exact (find_in _ _ _ _ F2)|].
  destruct (find (lit "div") [(lit "id", lit "content")] soup) eqn:F3;
    [right; exact (find_in _ _ _ _ F3)|].
  destruct (find (lit "div") [(lit "class", lit "content")] soup) eqn:F4;
    [right; exact (find_in _ _ _ _ F4)|].
  destruct (find (lit "body") [] soup) eqn:F5;
    [right; exact (find_in _ _ _ _ F5)|].
  left. reflexivity.
Qed.

(** X17. One identity per tag in the parsed document, and extra rules that
    test an element by its own name and attributes: steps 2 to 4 hand the
    converter the content root without the elements below it that match a
    rule or are an [img], and with every other element of it. *)
Theorem pruned_root_exact (extra : list selector) (soup : PageElement) :
  Forall element_local extra ->
  NoDup (uids soup) ->
  pruned_root extra soup
  = prune (fun e => matches_any (STRIP_SELECTORS extra) (content_root soup) e
                    || named (lit "img") e)
      (content_root soup).
Proof.
  intros Hl Hn.
  assert (Forall element_local (STRIP_SELECTORS extra)) as Hall
    by (apply Forall_app; split; [exact default_rules_local | exact Hl]).
  assert (NoDup (uids (content_root soup))) as Hr.
  { destruct (content_root_in soup) as [->|Hin];
      [exact Hn | exact (descendant_NoDup soup _ Hn Hin)]. }
  unfold pruned_root.
  rewrite strip_non_content_exact by assumption.
  rewrite remove_images_is_remove_all.
  rewrite remove_all_exact
    by (auto using prune_NoDup, tags_only_find_matches).
  rewrite prune_prune by apply shallow_find_matches.
  apply prune_ext. intros e. rewrite find_matches_name. reflexivity.
Qed.

Lemma pruned_root_exact_witness :
  pruned_root [] doc_full_head
  = el 9 "main" [] [el 11 "p" [] [txt "Welcome"]].
Proof.
  rewrite pruned_root_exact.
  - vm_compute. reflexivity.
  - constructor.
  - vm_compute. repeat constructor; simpl; intuition discriminate.
Defined.

(** ** The encoder cache *)

Lemma count_tokens_cache tiktoken TOKEN_MODEL cache text :
  snd (count_tokens tiktoken TOKEN_MODEL cache text)
  = snd (get_encoder tiktoken TOKEN_MODEL cache).
Proof.
  unfold count_tokens.
  destruct (get_encoder tiktoken TOKEN_MODEL cache) as [[enc|] c];
    [|reflexivity].
  destruct (encode tiktoken enc text); reflexivity.
Qed.

Lemma count_tokens_sound_cache tiktoken TOKEN_MODEL cache text :
  cache_sound tiktoken TOKEN_MODEL cache ->
  fst (count_tokens tiktoken TOKEN_MODEL cache text)
  = fst (count_tokens tiktoken TOKEN_MODEL None text)
  /\ cache_sound tiktoken TOKEN_MODEL
       (snd (count_tokens tiktoken TOKEN_MODEL cache text)).
Proof.
  intros H. rewrite count_tokens_cache, !count_tokens_cases.
  unfold tokenize, get_encoder. destruct cache as [enc|]; simpl in H.
  - rewrite H. split; [reflexivity | exact H].
  - destruct (get_encoding tiktoken TOKEN_MODEL) eqn:G; simpl; auto.
Qed.

(** X18. The lazy encoder is transparent: over any sequence of calls that
    starts with the empty cache, each count is the count a call with the
    empty cache gives for that text. *)
Theorem count_each_as_fresh (tiktoken : Tokenizer) (TOKEN_MODEL : str)
    (texts : list str) :
  fst (count_each tiktoken TOKEN_MODEL None texts)
  = map (fun text => fst (count_tokens tiktoken TOKEN_MODEL None text)) texts.
Proof.
  assert (forall cache,
             cache_sound tiktoken TOKEN_MODEL cache ->
             fst (count_each tiktoken TOKEN_MODEL cache texts)
             = map (fun text =>
                      fst (count_tokens tiktoken TOKEN_MODEL None text))
                 texts) as H.
  { induction texts as [|text more IH]; intros cache Hc; [reflexivity|].
    cbn [count_each map].
    destruct (count_tokens_sound_cache tiktoken TOKEN_MODEL cache text Hc)
      as [E Hc'].
    destruct (count_tokens tiktoken TOKEN_MODEL cache text) as [count c].
    specialize (IH c Hc').
    destruct (count_each tiktoken TOKEN_MODEL c more) as [counts c'].
    cbn [fst] in *. rewrite E, IH. reflexivity. }
  apply H. exact I.
Qed.

(** X19. The cache after a call: an encoder that was there stays; an empty
    cache takes the encoder when it can be loaded, also when [encode] then
    raises, and stays empty when it cannot, so that the next call tries
    again. *)
Theorem count_tokens_cache_after (tiktoken : Tokenizer) (TOKEN_MODEL : str)
    (cache : option (Encoding tiktoken)) (text : str) :
  snd (count_tokens tiktoken TOKEN_MODEL cache text)
  = match cache with
    | Some enc => Some enc
    | None =>
        match get_encoding tiktoken TOKEN_MODEL with
        | Returned enc => Some enc
        | Raised => None
        end
    end.
Proof.
  rewrite count_tokens_cache. unfold get_encoder.
  destruct cache; [reflexivity|].
  destruct (get_encoding tiktoken TOKEN_MODEL); reflexivity.
Qed.

(** X20. A count is never negative, and on the fallback path four times the
    count is the length of the text, less at most three. *)
Theorem count_tokens_bounds (tiktoken : Tokenizer) (TOKEN_MODEL : str)
    (cache : option (Encoding tiktoken)) (text : str) :
  exists n,
    fst (count_tokens tiktoken TOKEN_MODEL cache text) = Returned n
    /\ (0 <= n)%Z
    /\ (tokenize tiktoken TOKEN_MODEL cache text = Raised ->
        (4 * n <= Z.of_nat (List.length text) <= 4 * n + 3)%Z).
Proof.
  rewrite count_tokens_cases.
  destruct (tokenize tiktoken TOKEN_MODEL cache text) as [tokens|].
  - eexists. split; [reflexivity|]. split; [lia | discriminate].
  - eexists. split; [reflexivity|].
    pose proof (Z.div_mod (Z.of_nat (List.length text)) 4 ltac:(lia)) as D.
    pose proof (Z.mod_pos_bound (Z.of_nat (List.length text)) 4 ltac:(lia))
      as M.
    split; [apply Z.div_pos; lia | intros _; lia].
Qed.

(** ** The selectors of the environment *)

Lemma str_split_from_chars sep s :
  forall piece p c,
    In p (str_split_from sep piece s) -> In c p ->
    In c piece \/ (In c s /\ c <> sep).
Proof.
  induction s as [|d s IH]; intros piece p c Hp Hc.
  - destruct Hp as [<-|[]]. auto.
  - cbn [str_split_from] in Hp. destruct (N.eqb_spec d sep) as [->|Hd].
    + destruct Hp as [<-|Hp]; [auto|].
      destruct (IH [] p c Hp Hc) as [[]|[H1 H2]]. right. simpl. auto.
    + destruct (IH _ p c Hp Hc) as [H|[H1 H2]].
      * apply in_app_or in H. destruct H as [H|[<-|[]]]; [auto|].
        right. simpl. auto.
      * right. simpl. auto.
Qed.

Lemma strip_chars s c : In c (strip s) -> In c s.
Proof.
  destruct (strip_spec s) as [lead [trail [E _]]]. intros H.
  rewrite E. apply in_or_app. right. apply in_or_app. left. exact H.
Qed.

(** X21. No selector text taken from the environment is empty, has whitespace
    at either end or holds a comma. *)
Theorem extra_strip_texts_clean (EXTRA_STRIP text : str) :
  In text (extra_strip_texts EXTRA_STRIP) ->
  text <> [] /\ strip text = text /\ ~ In COMMA text.
Proof.
  unfold extra_strip_texts. destruct (truthy EXTRA_STRIP); [|intros []].
  intros H. apply in_map_iff in H. destruct H as [piece [<- H]].
  apply filter_In in H. destruct H as [Hp Ht].
  split; [intros E; rewrite E in Ht; discriminate|].
  split; [apply strip_idempotent|].
  intros Hc. apply strip_chars in Hc.
  destruct (str_split_from_chars COMMA EXTRA_STRIP [] piece COMMA Hp Hc)
    as [[]|[_ Hne]].
  congruence.
Qed.

Lemma extra_strip_texts_clean_witness :
  lit ".ad" <> [] /\ strip (lit ".ad") = lit ".ad" /\ ~ In COMMA (lit ".ad").
Proof.
  apply (extra_strip_texts_clean (lit " .ad , ,#promo,")).
  vm_compute. auto.
Defined.

(** X22. A value made of commas and whitespace only adds no selector. *)
Theorem extra_strip_texts_blank (EXTRA_STRIP : str) :
  (forall c, In c EXTRA_STRIP -> isspace c = true \/ c = COMMA) ->
  extra_strip_texts EXTRA_STRIP = [].
Proof.
  intros H. unfold extra_strip_texts.
  destruct (truthy EXTRA_STRIP); [|reflexivity].
  rewrite filter_none; [reflexivity|].
  intros piece Hp.
  assert (blank piece = true) as B.
  { apply forallb_forall. intros c Hc.
    destruct (str_split_from_chars COMMA EXTRA_STRIP [] piece c Hp Hc)
      as [[]|[Hin Hne]].
    destruct (H c Hin); [assumption | congruence]. }
  apply strip_nil_iff in B. rewrite B. reflexivity.
Qed.

Lemma extra_strip_texts_blank_witness :
  extra_strip_texts (lit " , ,,") = [].
Proof.
  apply extra_strip_texts_blank. intros c Hc. vm_compute in Hc.
  repeat (destruct Hc as [<-|Hc]; [first [left; reflexivity | right; reflexivity]|]).
  destruct Hc.
Defined.

(** ** Escaping, continued *)

Lemma front_matter_line_safe key value :
  front_matter_line (key, value)
  = key ++ lit ": " ++ [DQUOTE] ++ safe_value value ++ [DQUOTE].
Proof. reflexivity. Qed.

Lemma safe_value_cons c value :
  safe_value (c :: value)
  = (if (c =? DQUOTE)%N then [BACKSLASH; DQUOTE] else [c])
    ++ safe_value value.
Proof. reflexivity. Qed.

Lemma safe_value_head value :
  match safe_value value with
  | [] => True
  | c :: _ => c <> DQUOTE
  end.
Proof.
  destruct value as [|c value]; [exact I|]. rewrite safe_value_cons.
  destruct (N.eqb_spec c DQUOTE); simpl; [discriminate | assumption].
Qed.

(** X11. Escaping loses nothing: two values with the same escaped text are the
    same value. A value without a double quote is written as it is. *)
Theorem safe_value_injective (v w : str) :
  (safe_value v = safe_value w -> v = w)
  /\ (~ In DQUOTE v -> safe_value v = v).
Proof.
  split.
  - revert w. induction v as [|c v IH]; intros w E.
    + destruct w as [|d w]; [reflexivity|]. rewrite safe_value_cons in E.
      destruct (d =? DQUOTE)%N; discriminate.
    + destruct w as [|d w].
      * rewrite safe_value_cons in E. destruct (c =? DQUOTE)%N; discriminate.
      * rewrite !safe_value_cons in E.
        destruct (N.eqb_spec c DQUOTE) as [->|Hc];
          destruct (N.eqb_spec d DQUOTE) as [->|Hd]; simpl in E.
        -- inversion E. f_equal. auto.
        -- inversion E as [[E1 E2]]. subst d.
           pose proof (safe_value_head w) as H. rewrite <- E2 in H.
           exfalso. apply H. reflexivity.
        -- inversion E as [[E1 E2]]. subst c.
           pose proof (safe_value_head v) as H. rewrite E2 in H.
           exfalso. apply H. reflexivity.
        -- inversion E. f_equal. auto.
  - induction v as [|c v IH]; intros H; [reflexivity|].
    rewrite safe_value_cons.
    destruct (N.eqb_spec c DQUOTE) as [->|Hc]; [exfalso; apply H; left; reflexivity|].
    simpl. f_equal. apply IH. intros Hin. apply H. right. exact Hin.
Qed.

Lemma startswith_self s rest : startswith s (s ++ rest) = true.
Proof.
  induction s as [|c s IH]; [reflexivity|]. simpl.
  rewrite N.eqb_refl. exact IH.
Qed.

Lemma contains_self s rest : contains s (s ++ rest) = true.
Proof.
  destruct (s ++ rest) eqn:E; simpl; rewrite <- E, startswith_self;
    reflexivity.
Qed.

Lemma contains_joined sep x parts :
  In x parts -> contains x (join sep parts) = true.
Proof.
  induction parts as [|p parts IH]; intros H; [destruct H|].
  destruct parts as [|q parts].
  - destruct H as [->|[]]. cbn [join]. rewrite <- (app_nil_r x) at 2.
    apply contains_self.
  - change (join sep (p :: q :: parts))
      with (p ++ sep ++ join sep (q :: parts)).
    destruct H as [->|H]; [apply contains_self|].
    apply contains_after. apply contains_after. apply IH, H.
Qed.

(** X9. The mapping returned and the text returned agree: each item of the
    mapping is written in the output, as its front-matter line. *)
Theorem metadata_items_are_written (to_html : PageElement -> str)
    (md : str -> str) (extra : list selector) (soup : PageElement)
    (key value : str) :
  In (key, value) (snd (convert_soup to_html md extra soup)) ->
  contains (front_matter_line (key, value))
    (fst (convert_soup to_html md extra soup)) = true.
Proof.
  unfold convert_soup. cbn [fst snd]. intros H.
  destruct (extract_metadata soup) as [|m metadata] eqn:E; [destruct H|].
  unfold build_front_matter. apply contains_app. apply contains_joined.
  apply in_or_app. right. apply in_or_app. left.
  apply in_map. exact H.
Qed.

Lemma metadata_items_are_written_witness :
  contains (front_matter_line (lit "author", lit "Ann"))
    (fst (convert_soup (fun _ => []) (fun m => m) [] doc_full_head)) = true.
Proof.
  apply metadata_items_are_written. vm_compute. auto.
Defined.

(** ** The base of the origin URL *)

Lemma lstrip_char_repeat ch k s :
  lstrip_char ch (repeat ch k ++ s) = lstrip_char ch s.
Proof.
  induction k as [|k IH]; [reflexivity|]. simpl. rewrite N.eqb_refl.
  exact IH.
Qed.

Lemma lstrip_char_head ch s :
  match lstrip_char ch s with [] => True | c :: _ => c <> ch end.
Proof.
  induction s as [|c s IH]; [exact I|]. simpl.
  destruct (N.eqb_spec c ch); [exact IH | assumption].
Qed.

Lemma rev_repeat {A : Type} (x : A) k : rev (repeat x k) = repeat x k.
Proof.
  induction k as [|k IH]; [reflexivity|]. simpl. rewrite IH.
  clear IH. induction k as [|k IH]; [reflexivity|]. simpl. rewrite IH.
  reflexivity.
Qed.

(** X23. The slashes at the end of the configured base do not matter: the base
    used ends with one slash, after a stem that ends with none, and is the
    same with any number of slashes added to the configured one. *)
Theorem origin_base_trailing_slashes (ORIGIN_BASE_URL : str) (k : nat) :
  origin_base (ORIGIN_BASE_URL ++ repeat SLASH k)
  = origin_base ORIGIN_BASE_URL
  /\ exists stem,
       origin_base ORIGIN_BASE_URL = stem ++ [SLASH]
       /\ match rev stem with [] => True | c :: _ => c <> SLASH end.
Proof.
  unfold origin_base, rstrip_char. split.
  - rewrite rev_app_distr, rev_repeat, lstrip_char_repeat. reflexivity.
  - eexists. split; [reflexivity|]. rewrite rev_involutive.
    apply lstrip_char_head.
Qed.

(** ** Further examples *)

Lemma clean_blank_lines_keeps_text_witness :
  filter is_text (clean_blank_lines [lit "a"; lit " "; lit " b"])
  = [lit "a"; lit " b"].
Proof.
  exact (proj1 (clean_blank_lines_keeps_text [lit "a"; lit " "; lit " b"])).
Defined.

Lemma safe_value_injective_witness :
  safe_value (lit "plain") = lit "plain".
Proof.
  apply (proj2 (safe_value_injective (lit "plain") [])).
  vm_compute. intuition discriminate.
Defined.

Lemma count_tokens_bounds_witness :
  exists n,
    fst (count_tokens unavailable (lit "cl100k_base") None (lit "Hello"))
    = Returned n
    /\ (0 <= n)%Z
    /\ (tokenize unavailable (lit "cl100k_base") None (lit "Hello") = Raised ->
        (4 * n <= Z.of_nat (List.length (lit "Hello")) <= 4 * n + 3)%Z).
Proof.
  exact (count_tokens_bounds unavailable (lit "cl100k_base") None
           (lit "Hello")).
Defined.
